(** * HAProxy configurator: the configuration store, its validation rules and
    the renderer.

    The Go package keeps the desired configuration in a two-level map
    (listen IP, then port) of listeners; [AddListener] validates a request and
    merges it into that map, [Render] walks the map in sorted order and
    produces the configuration text.  Go maps are modelled by [gmap], pointer
    writes by writing the updated value back into its map slot, and a panic by
    an explicit result. *)

From Stdlib Require Import DecimalString.
From stdpp Require Import gmap strings list fin_maps sorting.

(** ** Sorting, as [sort.Strings] and [sort.Slice] do it

    Both library calls sort a slice in place according to a strict "less"
    function.  They are modelled by a stable insertion sort, which is the
    algorithm Go runs on short slices; for the string and port sorts the
    result does not depend on the algorithm, since a sorted arrangement of
    such values is unique. *)

Section insertion_sort.
Context {A : Type} (less : A → A → bool).

Fixpoint insertSorted (x : A) (l : list A) : list A :=
  match l with
  | [] => [x]
  | y :: l' => if less y x then y :: insertSorted x l' else x :: y :: l'
  end.

Definition insertionSort (l : list A) : list A := foldr insertSorted [] l.

(** [x] may stand before [y] in a sorted slice. *)
Definition notAfter (x y : A) : Prop := less y x = false.
End insertion_sort.

Definition sortStrings : list string → list string := insertionSort String.ltb.
Definition sortPorts : list N → list N := insertionSort N.ltb.

(** ** Data model

    A request is passed to [AddListener] by value and the hostname slot keeps
    a pointer to the copy's backend, so every slot has a backend of its own;
    the server slice of a backend is taken to be its own as well (no two
    requests share one array). *)

Definition nl : string := String (Ascii.ascii_of_nat 10) EmptyString.

(** [strconv.Itoa(int(port))] for an unsigned 16-bit port. *)
Definition Itoa (n : N) : string := NilZero.string_of_uint (N.to_uint n).

(** Modelled from the spec: the declaration of the backend server type is not
    part of the sources; its fields are the ones [Render] reads. *)
Module BackendServer.
Record t := mk { Name : string; IP : string; Port : N }.
End BackendServer.

(** Modelled from the spec: the declaration of [HaproxyBackend] is not part of
    the sources; its fields are the ones [Render] reads. *)
Module HaproxyBackend.
Record t := mk {
  Name : string;
  BalanceMethod : string;
  UseSSL : bool;
  VerifySSL : bool;
  Backends : list BackendServer.t
}.
End HaproxyBackend.

(** Modelled from the spec: the declaration of [haproxyListener] is not part
    of the sources; its fields are the ones [AddListener] initialises. *)
Record haproxyListener := mkListener {
  name : string;
  mode : string;
  sslCertificates : list string;
  hostnameBackends : gmap string HaproxyBackend.t;
  useSSL : bool
}.

(** Modelled from the spec: [haproxyConfig] is declared outside the sources;
    [Initialize] gives its only field. *)
Record haproxyConfig := mkConfig {
  listenIPs : gmap string (gmap N haproxyListener)
}.

Record HaproxyConfigurator := mkConfigurator {
  desiredConfig : haproxyConfig
}.

Record HaproxyListenerConfig := mkRequest {
  Name : string;
  Backend : HaproxyBackend.t;
  Hostname : string;
  ListenIP : string;
  ListenPort : N;
  Mode : string;
  SslCertificate : string;
  validationErrors : list string
}.

Definition storeOf (ips : gmap string (gmap N haproxyListener)) : HaproxyConfigurator :=
  mkConfigurator (mkConfig ips).

Definition ipsOf (h : HaproxyConfigurator) : gmap string (gmap N haproxyListener) :=
  listenIPs (desiredConfig h).

Definition Initialize : HaproxyConfigurator := storeOf ∅.

(** [m[ip][port]] read through both levels; a missing IP reads as an empty
    inner map, as a nil map does in Go. *)
Definition getListener (ips : gmap string (gmap N haproxyListener))
    (ip : string) (port : N) : option haproxyListener :=
  match ips !! ip with
  | Some inner => inner !! port
  | None => None
  end.

(** [m[ip][port] = &listener], and every write through that pointer. *)
Definition setListener (ips : gmap string (gmap N haproxyListener))
    (ip : string) (port : N) (l : haproxyListener) : gmap string (gmap N haproxyListener) :=
  <[ip := <[port := l]> (default ∅ (ips !! ip))]> ips.

(** ** Validation *)

Definition addValidationError (hlc : HaproxyListenerConfig) (message : string)
    : HaproxyListenerConfig :=
  mkRequest (Name hlc) (Backend hlc) (Hostname hlc) (ListenIP hlc) (ListenPort hlc)
            (Mode hlc) (SslCertificate hlc) (validationErrors hlc ++ [message]).

Definition hasCertificate (hlc : HaproxyListenerConfig) : bool :=
  negb (bool_decide (SslCertificate hlc = "")).

Definition msgInvalidMode (m : string) : string :=
  "Invalid mode (" +:+ m +:+ ") specified - valid options 'http', 'tcp'".
Definition msgModeMismatch : string := "Mode does not match on service".
Definition msgSslMismatch : string :=
  "SSL Certificate provided on a service that isn't using SSL".

(** The receiver is updated with the messages; the result is [validated]. *)
Definition validate (hlc : HaproxyListenerConfig) (h : HaproxyConfigurator)
    : HaproxyListenerConfig * bool :=
  let validated := true in
  let '(hlc, validated) :=
    if bool_decide (Mode hlc ≠ "http") && bool_decide (Mode hlc ≠ "tcp")
    then (addValidationError hlc (msgInvalidMode (Mode hlc)), false)
    else (hlc, validated) in
  match ipsOf h !! ListenIP hlc with
  | Some inner =>
      match inner !! ListenPort hlc with
      | Some listener =>
          let '(hlc, validated) :=
            if bool_decide (mode listener ≠ Mode hlc)
            then (addValidationError hlc msgModeMismatch, false)
            else (hlc, validated) in
          let '(hlc, validated) :=
            if bool_decide (useSSL listener ≠ hasCertificate hlc)
            then (addValidationError hlc msgSslMismatch, false)
            else (hlc, validated) in
          (hlc, validated)
      | None => (hlc, validated)
      end
  | None => (hlc, validated)
  end.

(** ** AddListener *)

(** What a call leaves behind besides the store: nothing, the lines printed
    for a rejected request, or the line printed before a panic and the panic
    value. *)
Inductive outcome :=
  | Added
  | Rejected (printed : list string)
  | Fatal (printed : list string) (panicValue : string).

Definition msgDuplicateTcp (port : N) : string :=
  "A listener for another TCP service is already configured on the port ("
    +:+ Itoa port +:+ ")".
Definition msgPanic : string :=
  "This could cause unpredictability in the service router".

(** The listener object created for a free (IP, port). *)
Definition newListener (hlc : HaproxyListenerConfig) : haproxyListener :=
  mkListener (Name hlc) (Mode hlc) [] ∅ (hasCertificate hlc).

(** The tail of the accepted branch, on the listener object the map slot
    points to: certificate append, hostname key, backend slot. *)
Definition mergeInto (hlc : HaproxyListenerConfig) (listener : haproxyListener)
    : haproxyListener :=
  let certificates :=
    if hasCertificate hlc
    then sslCertificates listener ++ [SslCertificate hlc]
    else sslCertificates listener in
  let hostname := if bool_decide (Mode hlc = "tcp") then "_" else Hostname hlc in
  mkListener (name listener) (mode listener) certificates
    (<[hostname := Backend hlc]> (hostnameBackends listener))
    (useSSL listener).

Definition AddListener (h : HaproxyConfigurator) (hlc : HaproxyListenerConfig)
    : HaproxyConfigurator * outcome :=
  let '(hlc, validated) := validate hlc h in
  if validated then
    let ips := ipsOf h in
    let ips :=
      match ips !! ListenIP hlc with
      | None => <[ListenIP hlc := ∅]> ips
      | Some _ => ips
      end in
    match getListener ips (ListenIP hlc) (ListenPort hlc) with
    | None =>
        (storeOf (setListener ips (ListenIP hlc) (ListenPort hlc)
                    (mergeInto hlc (newListener hlc))), Added)
    | Some listener =>
        if bool_decide (Mode hlc = "tcp")
        then (storeOf ips, Fatal [msgDuplicateTcp (ListenPort hlc)] msgPanic)
        else (storeOf (setListener ips (ListenIP hlc) (ListenPort hlc)
                         (mergeInto hlc listener)), Added)
    end
  else
    (h, Rejected (Name hlc :: map (λ message, "  " +:+ message) (validationErrors hlc))).

(** The messages the rules of [validate] produce for a request, in order. *)
Definition validationMessages (hlc : HaproxyListenerConfig) (h : HaproxyConfigurator)
    : list string :=
  (if bool_decide (Mode hlc ≠ "http") && bool_decide (Mode hlc ≠ "tcp")
   then [msgInvalidMode (Mode hlc)] else [])
  ++ match getListener (ipsOf h) (ListenIP hlc) (ListenPort hlc) with
     | Some listener =>
         (if bool_decide (mode listener ≠ Mode hlc) then [msgModeMismatch] else [])
         ++ (if bool_decide (useSSL listener ≠ hasCertificate hlc)
             then [msgSslMismatch] else [])
     | None => []
     end.

(** A caller that issues its requests one after the other; a panic ends the
    process, so nothing is left to render. *)
Inductive result (A : Type) :=
  | Ok (a : A)
  | Panic.
Arguments Ok {A} a.
Arguments Panic {A}.

Fixpoint AddListeners (h : HaproxyConfigurator) (hlcs : list HaproxyListenerConfig)
    : result HaproxyConfigurator :=
  match hlcs with
  | [] => Ok h
  | hlc :: rest =>
      match AddListener h hlc with
      | (_, Fatal _ _) => Panic
      | (h', _) => AddListeners h' rest
      end
  end.

(** Stores that calls of [AddListener] can build from [Initialize]. *)
Inductive reachable : HaproxyConfigurator → Prop :=
  | reachable_init : reachable Initialize
  | reachable_add h hlc : reachable h → reachable (AddListener h hlc).1.

(** ** Render *)

(** A [for _, k := range keys] loop whose body reads [m[k]], may update the
    object found there and appends to [config]; the body returns the updated
    object and the text it appended, or panics.  [nilPanics] says what a
    missing key means: a nil pointer that the body dereferences, or a nil map
    that is ranged over (no iteration). *)
Section range_loops.
Context `{Countable K} {V : Type}.
Variable nilPanics : bool.

Fixpoint forEach (body : K → V → V * result string)
    (keys : list K) (m : gmap K V) (config : string) : gmap K V * result string :=
  match keys with
  | [] => (m, Ok config)
  | k :: keys' =>
      match m !! k with
      | None => if nilPanics then (m, Panic) else forEach body keys' m config
      | Some v =>
          match body k v with
          | (v', Ok text) => forEach body keys' (<[k := v']> m) (config +:+ text)
          | (v', Panic) => (<[k := v']> m, Panic)
          end
      end
  end.

(** The same loop for a body that only reads. *)
Fixpoint emitInOrder (text : K → V → result string)
    (keys : list K) (m : gmap K V) (config : string) : result string :=
  match keys with
  | [] => Ok config
  | k :: keys' =>
      match m !! k with
      | None => if nilPanics then Panic else emitInOrder text keys' m config
      | Some v =>
          match text k v with
          | Ok t => emitInOrder text keys' m (config +:+ t)
          | Panic => Panic
          end
      end
  end.
End range_loops.

(** The key of [ips] after the first loop of [Render]: every key is appended
    and the slice sorted again. *)
Definition collectIPs (keys : list string) : list string :=
  foldl (λ ips listenIP, sortStrings (ips ++ [listenIP])) [] keys.

Definition sortListenerMap (inner : gmap N haproxyListener) : list N :=
  sortPorts (elements (dom inner)).

Definition sortBackendMap (inner : gmap string HaproxyBackend.t) : list string :=
  sortStrings (elements (dom inner)).

Definition lessByName (a b : BackendServer.t) : bool :=
  String.ltb (BackendServer.Name a) (BackendServer.Name b).

Definition sortServers : list BackendServer.t → list BackendServer.t :=
  insertionSort lessByName.

(** The certificates that get a [crt] directive: the loop over the sorted
    slice that skips a certificate equal to [previous]. *)
Fixpoint crtLoop (previous : string) (certificates : list string) : list string :=
  match certificates with
  | [] => []
  | certificate :: rest =>
      if bool_decide (previous ≠ certificate)
      then certificate :: crtLoop certificate rest
      else crtLoop previous rest
  end.

Definition crtDirectives (listener : haproxyListener) : list string :=
  crtLoop "" (sortStrings (sslCertificates listener)).

Definition concatStrings (l : list string) : string := foldr String.append "" l.

Definition useBackendRules (port : N) (hostname : string) (backend : HaproxyBackend.t)
    : result string :=
  Ok ("    # Set up backend selection for " +:+ hostname +:+ nl
      +:+ "    use_backend " +:+ HaproxyBackend.Name backend
      +:+ " if { hdr(host) -i " +:+ hostname +:+ " }" +:+ nl
      +:+ "    use_backend " +:+ HaproxyBackend.Name backend
      +:+ " if { hdr(host) -i " +:+ hostname +:+ ":" +:+ Itoa port +:+ " }" +:+ nl).

(** The body of the front-end pass for one listener. *)
Definition frontEnd (listenIP : string) (port : N) (listener : haproxyListener)
    : haproxyListener * result string :=
  let config :=
    "frontend " +:+ name listener +:+ nl
    +:+ "    mode " +:+ mode listener +:+ nl
    +:+ "    bind " +:+ listenIP +:+ ":" +:+ Itoa port in
  let '(listener, config) :=
    if useSSL listener then
      let listener :=
        mkListener (name listener) (mode listener)
          (sortStrings (sortStrings (sslCertificates listener)))
          (hostnameBackends listener) (useSSL listener) in
      (listener,
       config +:+ " ssl"
       +:+ concatStrings
             (map (λ certificate, " crt " +:+ certificate)
                (crtLoop "" (sslCertificates listener)))
       +:+ nl
       +:+ (if bool_decide (mode listener = "http")
            then "    reqadd x-forwarded-proto:\ https" else ""))
    else (listener, config) in
  let config := config +:+ nl +:+ nl in
  if bool_decide (mode listener = "http") then
    match emitInOrder true (useBackendRules port)
            (sortBackendMap (hostnameBackends listener)) (hostnameBackends listener)
            config with
    | Ok config => (listener, Ok (config +:+ nl))
    | Panic => (listener, Panic)
    end
  else if bool_decide (mode listener = "tcp") then
    match hostnameBackends listener !! "_" with
    | Some backend =>
        (listener,
         Ok (config +:+ "    # Set up default_backend" +:+ nl
             +:+ "    default_backend " +:+ HaproxyBackend.Name backend +:+ nl
             +:+ nl))
    | None => (listener, Panic)
    end
  else (listener, Ok (config +:+ nl)).

Definition serverLine (backend : HaproxyBackend.t) (backendServer : BackendServer.t)
    : string :=
  "    server " +:+ BackendServer.Name backendServer +:+ " "
  +:+ BackendServer.IP backendServer +:+ ":" +:+ Itoa (BackendServer.Port backendServer)
  +:+ " check"
  +:+ (if HaproxyBackend.UseSSL backend
       then " ssl" +:+ (if negb (HaproxyBackend.VerifySSL backend)
                        then " verify none" else "")
       else "")
  +:+ nl.

(** The body of the back-end pass for one hostname slot of a listener. *)
Definition backEnd (listenerMode : string) (hostname : string)
    (backend : HaproxyBackend.t) : HaproxyBackend.t * result string :=
  let config :=
    "backend " +:+ HaproxyBackend.Name backend +:+ nl
    +:+ "    mode " +:+ listenerMode +:+ nl
    +:+ "    balance " +:+ HaproxyBackend.BalanceMethod backend +:+ nl
    +:+ nl
    +:+ "    # Backend Servers" +:+ nl in
  let backend :=
    HaproxyBackend.mk (HaproxyBackend.Name backend)
      (HaproxyBackend.BalanceMethod backend) (HaproxyBackend.UseSSL backend)
      (HaproxyBackend.VerifySSL backend)
      (sortServers (HaproxyBackend.Backends backend)) in
  (backend,
   Ok (config
       +:+ concatStrings (map (serverLine backend) (HaproxyBackend.Backends backend))
       +:+ nl)).

Definition backEndsOfListener (port : N) (listener : haproxyListener)
    : haproxyListener * result string :=
  let '(backends, r) :=
    forEach true (backEnd (mode listener))
      (sortBackendMap (hostnameBackends listener)) (hostnameBackends listener) "" in
  (mkListener (name listener) (mode listener) (sslCertificates listener)
     backends (useSSL listener), r).

Definition frontEndsOfIP (listenIP : string) (innerMap : gmap N haproxyListener)
    : gmap N haproxyListener * result string :=
  forEach true (frontEnd listenIP) (sortListenerMap innerMap) innerMap "".

Definition backEndsOfIP (listenIP : string) (innerMap : gmap N haproxyListener)
    : gmap N haproxyListener * result string :=
  forEach true backEndsOfListener (sortListenerMap innerMap) innerMap "".

Definition Render (h : HaproxyConfigurator) : HaproxyConfigurator * result string :=
  let config := "" in
  let ips := collectIPs (elements (dom (ipsOf h))) in
  match forEach false frontEndsOfIP ips (ipsOf h) config with
  | (m, Ok config) =>
      let '(m, r) := forEach false backEndsOfIP ips m config in
      (storeOf m, r)
  | (m, Panic) => (storeOf m, Panic)
  end.


(** ** The renderer as the specification words it

    A pure function of the store: two passes over the store in sorted order,
    the text of each stanza read off the listener and its backends.  It is
    compared with [Render] below. *)

Definition hostnameOrder (listener : haproxyListener) : list string :=
  sortStrings (elements (dom (hostnameBackends listener))).

Definition portOrder (inner : gmap N haproxyListener) : list N :=
  sortPorts (elements (dom inner)).

Definition ipOrder (h : HaproxyConfigurator) : list string :=
  sortStrings (elements (dom (ipsOf h))).

Definition serverOrder (backend : HaproxyBackend.t) : list BackendServer.t :=
  sortServers (HaproxyBackend.Backends backend).

(** What follows the bind address: nothing, or [ssl], one [crt] directive per
    distinct certificate in sorted order, and for http the header line. *)
Definition bindOptions (listener : haproxyListener) : string :=
  if useSSL listener then
    " ssl"
    +:+ concatStrings
          (map (λ certificate, " crt " +:+ certificate) (crtDirectives listener))
    +:+ nl
    +:+ (if bool_decide (mode listener = "http")
         then "    reqadd x-forwarded-proto:\ https" else "")
  else "".

Definition frontEndText (listenIP : string) (port : N) (listener : haproxyListener)
    : result string :=
  let head :=
    (("frontend " +:+ name listener +:+ nl
      +:+ "    mode " +:+ mode listener +:+ nl
      +:+ "    bind " +:+ listenIP +:+ ":" +:+ Itoa port)
     +:+ bindOptions listener)
    +:+ nl +:+ nl in
  if bool_decide (mode listener = "http") then
    match emitInOrder true (useBackendRules port)
            (hostnameOrder listener) (hostnameBackends listener) head with
    | Ok config => Ok (config +:+ nl)
    | Panic => Panic
    end
  else if bool_decide (mode listener = "tcp") then
    match hostnameBackends listener !! "_" with
    | Some backend =>
        Ok (head +:+ "    # Set up default_backend" +:+ nl
            +:+ "    default_backend " +:+ HaproxyBackend.Name backend +:+ nl
            +:+ nl)
    | None => Panic
    end
  else Ok (head +:+ nl).

Definition backEndText (listenerMode : string) (hostname : string)
    (backend : HaproxyBackend.t) : result string :=
  Ok (("backend " +:+ HaproxyBackend.Name backend +:+ nl
       +:+ "    mode " +:+ listenerMode +:+ nl
       +:+ "    balance " +:+ HaproxyBackend.BalanceMethod backend +:+ nl
       +:+ nl
       +:+ "    # Backend Servers" +:+ nl)
      +:+ concatStrings (map (serverLine backend) (serverOrder backend))
      +:+ nl).

Definition backEndsText (port : N) (listener : haproxyListener) : result string :=
  emitInOrder true (backEndText (mode listener))
    (hostnameOrder listener) (hostnameBackends listener) "".

Definition frontEndsOfIPText (listenIP : string) (inner : gmap N haproxyListener)
    : result string :=
  emitInOrder true (frontEndText listenIP) (portOrder inner) inner "".

Definition backEndsOfIPText (listenIP : string) (inner : gmap N haproxyListener)
    : result string :=
  emitInOrder true backEndsText (portOrder inner) inner "".

Definition RenderSpec (h : HaproxyConfigurator) : result string :=
  match emitInOrder false frontEndsOfIPText (ipOrder h) (ipsOf h) "" with
  | Ok config => emitInOrder false backEndsOfIPText (ipOrder h) (ipsOf h) config
  | Panic => Panic
  end.

(** What a caller sees after issuing [hlcs] against [h] and rendering. *)
Definition renderAfter (h : HaproxyConfigurator) (hlcs : list HaproxyListenerConfig)
    : result string :=
  match AddListeners h hlcs with
  | Ok h' => (Render h').2
  | Panic => Panic
  end.

(** ** Relations between stores *)

(** Two maps with the same keys and related values. *)
Definition mapRel `{Countable K} {V : Type} (R : V → V → Prop) (m m' : gmap K V) : Prop :=
  ∀ k, option_Forall2 R (m !! k) (m' !! k).

(** A slice after zero or more in-place sorts. *)
Definition sortedInPlace {A : Type} (sort : list A → list A) (l l' : list A) : Prop :=
  l' = l ∨ l' = sort l.

Record backendInPlace (b b' : HaproxyBackend.t) : Prop := mkBackendInPlace {
  bip_name : HaproxyBackend.Name b' = HaproxyBackend.Name b;
  bip_balance : HaproxyBackend.BalanceMethod b' = HaproxyBackend.BalanceMethod b;
  bip_usessl : HaproxyBackend.UseSSL b' = HaproxyBackend.UseSSL b;
  bip_verify : HaproxyBackend.VerifySSL b' = HaproxyBackend.VerifySSL b;
  bip_servers :
    sortedInPlace sortServers (HaproxyBackend.Backends b) (HaproxyBackend.Backends b')
}.

Record listenerInPlace (l l' : haproxyListener) : Prop := mkListenerInPlace {
  lip_name : name l' = name l;
  lip_mode : mode l' = mode l;
  lip_usessl : useSSL l' = useSSL l;
  lip_certificates : sortedInPlace sortStrings (sslCertificates l) (sslCertificates l');
  lip_backends : mapRel backendInPlace (hostnameBackends l) (hostnameBackends l')
}.


(** Two listeners that render the same stanzas. *)
Definition sameText (l l' : haproxyListener) : Prop :=
  (∀ listenIP port, frontEndText listenIP port l = frontEndText listenIP port l')
  ∧ (∀ port, backEndsText port l = backEndsText port l').

(** ** Store invariants *)

(** Every tcp listener has a backend under the hostname key "_". *)
Definition tcpHasDefault (h : HaproxyConfigurator) : Prop :=
  ∀ ip port l, getListener (ipsOf h) ip port = Some l →
    mode l = "tcp" → is_Some (hostnameBackends l !! "_").

(** No stored certificate name is empty. *)
Definition certificatesNamed (h : HaproxyConfigurator) : Prop :=
  ∀ ip port l, getListener (ipsOf h) ip port = Some l → "" ∉ sslCertificates l.

(** ** Sample requests and stores *)

Definition webBackend : HaproxyBackend.t :=
  HaproxyBackend.mk "web-be" "roundrobin" false false
    [BackendServer.mk "n1" "10.0.0.5" 8080%N].

Definition webRequest : HaproxyListenerConfig :=
  mkRequest "web" webBackend "example.com" "0.0.0.0" 80%N "http" "" [].

Definition webStore : HaproxyConfigurator := (AddListener Initialize webRequest).1.

(** The configuration text expected for [webRequest] alone. *)
Definition webConfig : string :=
  concatStrings (map (λ line, line +:+ nl)
    [ "frontend web";
      "    mode http";
      "    bind 0.0.0.0:80";
      "";
      "    # Set up backend selection for example.com";
      "    use_backend web-be if { hdr(host) -i example.com }";
      "    use_backend web-be if { hdr(host) -i example.com:80 }";
      "";
      "backend web-be";
      "    mode http";
      "    balance roundrobin";
      "";
      "    # Backend Servers";
      "    server n1 10.0.0.5:8080 check";
      "" ]).

(** A tcp request on the port [webStore] serves http on, with a certificate
    that listener does not use. *)
Definition clashRequest : HaproxyListenerConfig :=
  mkRequest "web-tcp" webBackend "example.org" "0.0.0.0" 80%N "tcp" "cert.pem" [].

Definition dbRequest : HaproxyListenerConfig :=
  mkRequest "db"
    (HaproxyBackend.mk "db-be" "leastconn" false false
       [BackendServer.mk "db1" "10.0.1.5" 3306%N])
    "db.example.com" "10.0.0.1" 3306%N "tcp" "" [].

Definition dbStore : HaproxyConfigurator := (AddListener Initialize dbRequest).1.

Definition ftpRequest : HaproxyListenerConfig :=
  mkRequest "files" webBackend "files.example.com" "0.0.0.0" 21%N "ftp" "" [].

Definition shopRequest (certificate : string) : HaproxyListenerConfig :=
  mkRequest "shop"
    (HaproxyBackend.mk "shop-be" "roundrobin" true false
       [BackendServer.mk "n2" "10.0.0.6" 8443%N; BackendServer.mk "n1" "10.0.0.5" 8443%N])
    "shop.example.com" "0.0.0.0" 443%N "http" certificate [].

(** The same certificate supplied twice. *)
Definition shopStoreTwice : HaproxyConfigurator :=
  (AddListener (AddListener Initialize (shopRequest "a.pem")).1 (shopRequest "a.pem")).1.

(** Two certificates supplied in descending order. *)
Definition shopStoreUnsorted : HaproxyConfigurator :=
  (AddListener (AddListener Initialize (shopRequest "b.pem")).1 (shopRequest "a.pem")).1.

(** ** Further notions used to describe the store *)

(** The store after a run of calls, whatever their outcomes. *)
Definition storeAfter (h : HaproxyConfigurator) (hlcs : list HaproxyListenerConfig)
    : HaproxyConfigurator :=
  foldl (λ h hlc, (AddListener h hlc).1) h hlcs.

(** [l'] is [l] after more requests were merged into it. *)
Record listenerGrows (l l' : haproxyListener) : Prop := mkListenerGrows {
  grows_name : name l' = name l;
  grows_mode : mode l' = mode l;
  grows_usessl : useSSL l' = useSSL l;
  grows_certificates : sslCertificates l `prefix_of` sslCertificates l';
  grows_backends : ∀ hostname,
    is_Some (hostnameBackends l !! hostname) → is_Some (hostnameBackends l' !! hostname)
}.

(** The hostname key a request writes its backend to. *)
Definition hostnameKey (hlc : HaproxyListenerConfig) : string :=
  if bool_decide (Mode hlc = "tcp") then "_" else Hostname hlc.

(** A backend whose servers are in the order [Render] wants them in. *)
Definition backendSorted (backend : HaproxyBackend.t) : Prop :=
  Sorted (λ a b, String.le (BackendServer.Name a) (BackendServer.Name b))
    (HaproxyBackend.Backends backend).

(** A listener [Render] has nothing to sort in. *)
Definition listenerSorted (l : haproxyListener) : Prop :=
  (useSSL l = true → Sorted String.le (sslCertificates l))
  ∧ ∀ hostname backend,
      hostnameBackends l !! hostname = Some backend → backendSorted backend.

Definition storeSorted (h : HaproxyConfigurator) : Prop :=
  ∀ ip port l, getListener (ipsOf h) ip port = Some l → listenerSorted l.

(** ** Discovery of nodes and services (kubernetes.go)

    The two functions talk to the cluster through the client library.  The
    results of those calls are the inputs of the model: building the
    configuration and the client either gives a value or an error, a list
    call gives a pointer to the list object (nil or not) together with an
    error (nil or not).  Of the library's records the model keeps the fields
    the code reads, and a name for a service. *)

Module NodeAddress.
Record t := mk { Type_ : string; Address : string }.
End NodeAddress.

Module Node.
Record t := mk { Name : string; Addresses : list NodeAddress.t }.
End Node.

Module Service.
Record t := mk { Name : string; Labels : gmap string string }.
End Service.

(** A value or the error returned in its place. *)
Inductive apiResult (A : Type) :=
  | Returned (a : A)
  | Failed (err : string).
Arguments Returned {A} a.
Arguments Failed {A} err.

(** The inner loop over [node.Status.Addresses]. *)
Definition internalAddresses (nodeIPs : gmap string string) (node : Node.t)
    : gmap string string :=
  foldl (λ nodeIPs address,
           if bool_decide (NodeAddress.Type_ address = "InternalIP")
           then <[Node.Name node := NodeAddress.Address address]> nodeIPs
           else nodeIPs)
    nodeIPs (Node.Addresses node).

(** The loop over [nodes.Items], from the empty [kubernetesNodeIPs]. *)
Definition collectNodeIPs (items : list Node.t) : gmap string string :=
  foldl internalAddresses ∅ items.

(** The loop over [services.Items]; a missing label reads as the empty
    string. *)
Definition proxiedServices (items : list Service.t) : list Service.t :=
  foldl (λ proxied service,
           if bool_decide
                (default "" (Service.Labels service !! "service-router.enabled") = "yes")
           then proxied ++ [service] else proxied)
    [] items.

Section kubernetes.
Variables Config Clientset : Type.

(** The lines given to [logger.Error], and what the call returns: the map
    with a nil error, or nil with the error; [Panic] for the dereference of
    a nil list. *)
Definition getAllKubernetesNodes
    (buildConfig : apiResult Config)
    (newForConfig : Config → apiResult Clientset)
    (listNodes : Clientset → option (list Node.t) * option string)
    : list string * result (apiResult (gmap string string)) :=
  match buildConfig with
  | Failed err => ([], Ok (Failed err))
  | Returned config =>
      match newForConfig config with
      | Failed err => ([], Ok (Failed err))
      | Returned clientset =>
          let '(nodes, err) := listNodes clientset in
          let logged := match err with Some e => [e] | None => [] end in
          match nodes with
          | None => (logged, Panic)
          | Some items => (logged, Ok (Returned (collectNodeIPs items)))
          end
      end
  end.

Definition getProxiedKubernetesServices
    (buildConfig : apiResult Config)
    (newForConfig : Config → apiResult Clientset)
    (listServices : Clientset → option (list Service.t) * option string)
    : result (apiResult (list Service.t)) :=
  match buildConfig with
  | Failed err => Panic
  | Returned config =>
      match newForConfig config with
      | Failed err => Ok (Failed err)
      | Returned clientset =>
          match listServices clientset with
          | (_, Some err) => Ok (Failed err)
          | (None, None) => Panic
          | (Some items, None) => Ok (Returned (proxiedServices items))
          end
      end
  end.
End kubernetes.

(** The two tests of the discovery loops. *)
Definition routerEnabled (service : Service.t) : Prop :=
  Service.Labels service !! "service-router.enabled" = Some "yes".

Definition internalIP (address : NodeAddress.t) : Prop :=
  NodeAddress.Type_ address = "InternalIP".

(** ** More sample data *)

Definition blogRequest : HaproxyListenerConfig :=
  mkRequest "blog"
    (HaproxyBackend.mk "blog-be" "roundrobin" false false
       [BackendServer.mk "b1" "10.0.2.5" 8080%N])
    "blog.example.com" "0.0.0.0" 80%N "http" "" [].

Definition wikiRequest : HaproxyListenerConfig :=
  mkRequest "wiki"
    (HaproxyBackend.mk "wiki-be" "leastconn" false false
       [BackendServer.mk "w2" "10.0.3.6" 8080%N; BackendServer.mk "w1" "10.0.3.5" 8080%N])
    "wiki.example.com" "0.0.0.0" 80%N "http" "" [].


Definition sampleNodes : list Node.t :=
  [ Node.mk "node1"
      [ NodeAddress.mk "Hostname" "node1.local";
        NodeAddress.mk "InternalIP" "10.0.0.11";
        NodeAddress.mk "ExternalIP" "203.0.113.11" ];
    Node.mk "node2" [ NodeAddress.mk "ExternalIP" "203.0.113.12" ];
    Node.mk "node3"
      [ NodeAddress.mk "InternalIP" "10.0.0.13";
        NodeAddress.mk "InternalIP" "10.0.1.13" ] ].

(** ** Facts about the sorts *)

Section insertion_sort_facts.
Context {A : Type} (less : A → A → bool).
Hypothesis less_asym : ∀ x y, less x y = true → less y x = false.

Lemma insertSorted_Permutation x l : insertSorted less x l ≡ₚ x :: l.
Proof.
  induction l as [|y l IH]; simpl; [done|].
  destruct (less y x); [|done].
  rewrite IH. apply Permutation_swap.
Qed.

Lemma insertionSort_Permutation l : insertionSort less l ≡ₚ l.
Proof.
  induction l as [|x l IH]; simpl; [done|].
  by rewrite insertSorted_Permutation, IH.
Qed.

Lemma insertSorted_HdRel z x l :
  notAfter less z x → HdRel (notAfter less) z l → HdRel (notAfter less) z (insertSorted less x l).
Proof.
  intros Hzx Hl. destruct l as [|y l]; simpl; [by constructor|].
  destruct (less y x); constructor; [|done].
  by inversion Hl.
Qed.

Lemma insertSorted_Sorted x l :
  Sorted (notAfter less) l → Sorted (notAfter less) (insertSorted less x l).
Proof.
  induction 1 as [|y l Hl IH Hhd]; simpl; [by repeat constructor|].
  destruct (less y x) eqn:Hyx.
  - constructor; [done|]. apply insertSorted_HdRel; [|done].
    unfold notAfter. by apply less_asym.
  - constructor; [by constructor|]. by constructor.
Qed.

Lemma insertionSort_Sorted l : Sorted (notAfter less) (insertionSort less l).
Proof.
  induction l; simpl; [constructor|]. by apply insertSorted_Sorted.
Qed.

Lemma insertionSort_id l : Sorted (notAfter less) l → insertionSort less l = l.
Proof.
  induction 1 as [|x l Hl IH Hhd]; simpl; [done|].
  rewrite IH. destruct Hhd as [|y l Hxy]; simpl; [done|].
  unfold notAfter in Hxy. by rewrite Hxy.
Qed.

Lemma insertionSort_idemp l : insertionSort less (insertionSort less l) = insertionSort less l.
Proof. apply insertionSort_id, insertionSort_Sorted. Qed.
End insertion_sort_facts.

Lemma Sorted_weaken {A} (R R' : relation A) l :
  (∀ x y, R x y → R' x y) → Sorted R l → Sorted R' l.
Proof.
  intros HR. induction 1 as [|x l Hl IH Hhd]; constructor; [done|].
  destruct Hhd; constructor; auto.
Qed.

Lemma string_ltb_asym x y : String.ltb x y = true → String.ltb y x = false.
Proof.
  unfold String.ltb. rewrite (String.compare_antisym y x).
  by destruct (String.compare x y).
Qed.

Lemma string_notAfter_le x y : notAfter String.ltb x y ↔ String.le x y.
Proof.
  unfold notAfter, String.le, String.ltb, String.leb.
  rewrite (String.compare_antisym y x).
  destruct (String.compare x y); simpl; split; done.
Qed.

Lemma string_le_least s : String.le "" s.
Proof. by destruct s. Qed.

Lemma sortStrings_Permutation l : sortStrings l ≡ₚ l.
Proof. apply insertionSort_Permutation. Qed.

Lemma sortStrings_Sorted l : Sorted String.le (sortStrings l).
Proof.
  eapply Sorted_weaken; [apply string_notAfter_le|].
  apply insertionSort_Sorted, string_ltb_asym.
Qed.

Lemma sortStrings_unique l l' :
  Sorted String.le l' → l' ≡ₚ l → sortStrings l = l'.
Proof.
  intros Hs Hp. apply (Sorted_unique String.le); [apply sortStrings_Sorted|done|].
  by rewrite sortStrings_Permutation.
Qed.

Lemma sortStrings_perm l l' : l ≡ₚ l' → sortStrings l = sortStrings l'.
Proof.
  intros Hp. apply sortStrings_unique; [apply sortStrings_Sorted|].
  by rewrite sortStrings_Permutation.
Qed.

Lemma sortStrings_idemp l : sortStrings (sortStrings l) = sortStrings l.
Proof. apply insertionSort_idemp, string_ltb_asym. Qed.


Lemma sortPorts_Permutation l : sortPorts l ≡ₚ l.
Proof. apply insertionSort_Permutation. Qed.



Lemma lessByName_asym a b : lessByName a b = true → lessByName b a = false.
Proof. apply string_ltb_asym. Qed.

Lemma sortServers_Permutation l : sortServers l ≡ₚ l.
Proof. apply insertionSort_Permutation. Qed.

Lemma sortServers_Sorted l :
  Sorted (λ a b, String.le (BackendServer.Name a) (BackendServer.Name b)) (sortServers l).
Proof.
  eapply Sorted_weaken; [|apply insertionSort_Sorted, lessByName_asym].
  intros a b. apply string_notAfter_le.
Qed.

Lemma sortServers_idemp l : sortServers (sortServers l) = sortServers l.
Proof. apply insertionSort_idemp, lessByName_asym. Qed.

Lemma collectIPs_sorted keys : collectIPs keys = sortStrings keys.
Proof.
  unfold collectIPs.
  assert (∀ acc, Sorted String.le acc →
    foldl (λ ips listenIP, sortStrings (ips ++ [listenIP])) acc keys
    = sortStrings (acc ++ keys)) as Hgen.
  { induction keys as [|k keys IH]; intros acc Hacc; simpl.
    - rewrite app_nil_r. symmetry. by apply sortStrings_unique.
    - rewrite IH by apply sortStrings_Sorted.
      apply sortStrings_perm. rewrite sortStrings_Permutation.
      by rewrite <-app_assoc. }
  apply (Hgen []). constructor.
Qed.

(** ** Facts about the range loops *)

Section map_relation_facts.
Context `{Countable K} {V : Type} (R : V → V → Prop).

Lemma mapRel_refl `{!Reflexive R} (m : gmap K V) : mapRel R m m.
Proof. intros k. by destruct (m !! k); constructor. Qed.

Lemma mapRel_trans `{!Transitive R} (m1 m2 m3 : gmap K V) :
  mapRel R m1 m2 → mapRel R m2 m3 → mapRel R m1 m3.
Proof.
  intros H12 H23 k. specialize (H12 k). specialize (H23 k).
  destruct H12; inversion H23; simplify_eq; constructor. by etrans.
Qed.

Lemma mapRel_dom (m m' : gmap K V) : mapRel R m m' → dom m = dom m'.
Proof.
  intros Hm. apply set_eq. intros k. rewrite !elem_of_dom.
  specialize (Hm k). destruct Hm; split; intros [? ?]; by eauto.
Qed.

Lemma mapRel_insert (m : gmap K V) k v v' `{!Reflexive R} :
  m !! k = Some v → R v v' → mapRel R m (<[k := v']> m).
Proof.
  intros Hk Hv i. destruct (decide (k = i)) as [->|Hne].
  - rewrite lookup_insert_eq, Hk. by constructor.
  - rewrite lookup_insert_ne by done. by apply mapRel_refl.
Qed.

End map_relation_facts.

Section range_loop_facts.
Context `{Countable K} {V : Type} (nilPanics : bool).
Implicit Types (m : gmap K V) (keys : list K).

Lemma emitInOrder_rel (R : V → V → Prop) text text' keys m m' config :
  mapRel R m m' →
  (∀ k v v', R v v' → text k v = text' k v') →
  emitInOrder nilPanics text keys m config = emitInOrder nilPanics text' keys m' config.
Proof.
  intros Hm Ht. revert config.
  induction keys as [|k keys IH]; intros config; simpl; [done|].
  destruct (Hm k) as [v v' Hv|]; [|by destruct nilPanics].
  rewrite (Ht _ _ _ Hv). by destruct (text' k v').
Qed.

Lemma emitInOrder_fresh text keys m k v config :
  k ∉ keys →
  emitInOrder nilPanics text keys (<[k := v]> m) config
  = emitInOrder nilPanics text keys m config.
Proof.
  revert config. induction keys as [|i keys IH]; intros config Hk; simpl; [done|].
  apply not_elem_of_cons in Hk as [Hne Hk].
  rewrite lookup_insert_ne by done.
  destruct (m !! i) as [w|]; [destruct (text i w)|destruct nilPanics]; auto.
Qed.

(** The text a loop appends does not depend on the updates it makes, as long
    as no key is visited twice. *)
Lemma forEach_text body keys m config :
  NoDup keys →
  (forEach nilPanics body keys m config).2
  = emitInOrder nilPanics (λ k v, (body k v).2) keys m config.
Proof.
  intros Hnd. revert m config.
  induction Hnd as [|k keys Hk Hnd IH]; intros m config; simpl; [done|].
  destruct (m !! k) as [v|]; [|by destruct nilPanics].
  destruct (body k v) as [v' [text|]]; simpl; [|done].
  by rewrite IH, emitInOrder_fresh.
Qed.

(** A loop whose body keeps each object within [R] keeps the map within [R]. *)
Lemma forEach_rel (R : V → V → Prop) `{!Reflexive R, !Transitive R} body keys m config :
  (∀ k v, R v (body k v).1) →
  mapRel R m (forEach nilPanics body keys m config).1.
Proof.
  intros Hbody. revert m config.
  induction keys as [|k keys IH]; intros m config; simpl; [by apply mapRel_refl|].
  destruct (m !! k) as [v|] eqn:Hk.
  - specialize (Hbody k v). destruct (body k v) as [v' [text|]]; simpl in *.
    + eapply mapRel_trans; [done|by eapply mapRel_insert|apply IH].
    + by eapply mapRel_insert.
  - destruct nilPanics; [by apply mapRel_refl|apply IH].
Qed.

Lemma emitInOrder_total text keys m config :
  (∀ k, k ∈ keys → ∃ v t, m !! k = Some v ∧ text k v = Ok t) →
  ∃ out, emitInOrder nilPanics text keys m config = Ok out.
Proof.
  revert config. induction keys as [|k keys IH]; intros config Hk; simpl; [by eauto|].
  destruct (Hk k) as (v & t & -> & ->); [by left|].
  apply IH. intros i Hi. apply Hk. by right.
Qed.
End range_loop_facts.

(** ** In-place sorting is all that [Render] does to the store *)

Lemma sortedInPlace_refl {A} (sort : list A → list A) l : sortedInPlace sort l l.
Proof. by left. Qed.

Lemma sortedInPlace_trans {A} (sort : list A → list A) l1 l2 l3 :
  (∀ l, sort (sort l) = sort l) →
  sortedInPlace sort l1 l2 → sortedInPlace sort l2 l3 → sortedInPlace sort l1 l3.
Proof.
  intros Hidem [->| ->] [->| ->]; unfold sortedInPlace; rewrite ?Hidem; auto.
Qed.

#[export] Instance backendInPlace_refl : Reflexive backendInPlace.
Proof. intros b. split; try done. by left. Qed.

#[export] Instance backendInPlace_trans : Transitive backendInPlace.
Proof.
  intros b1 b2 b3 [? ? ? ? ?] [? ? ? ? ?]. split; try congruence.
  eapply sortedInPlace_trans; eauto using sortServers_idemp.
Qed.

#[export] Instance listenerInPlace_refl : Reflexive listenerInPlace.
Proof. intros l. split; try done; [by left|apply mapRel_refl, _]. Qed.

#[export] Instance listenerInPlace_trans : Transitive listenerInPlace.
Proof.
  intros l1 l2 l3 [? ? ? ? ?] [? ? ? ? ?]. split; try congruence.
  - eapply sortedInPlace_trans; eauto using sortStrings_idemp.
  - eapply mapRel_trans; [apply _|done..].
Qed.

#[export] Instance innerInPlace_refl : Reflexive (mapRel (K:=N) listenerInPlace).
Proof. intros m. apply mapRel_refl, _. Qed.

#[export] Instance innerInPlace_trans : Transitive (mapRel (K:=N) listenerInPlace).
Proof. intros m1 m2 m3. apply mapRel_trans, _. Qed.

Lemma frontEnd_inPlace listenIP port l : listenerInPlace l (frontEnd listenIP port l).1.
Proof.
  unfold frontEnd. destruct (useSSL l) eqn:Hssl.
  - cbn [mode name hostnameBackends].
    set (l' := mkListener _ _ _ _ _).
    assert (listenerInPlace l l') as Hl'.
    { split; try done; [|apply mapRel_refl, _].
      right. simpl. by rewrite sortStrings_idemp. }
    destruct (bool_decide (mode l = "http")).
    + by destruct (emitInOrder _ _ _ _ _).
    + destruct (bool_decide (mode l = "tcp")); [|done].
      by destruct (hostnameBackends l !! "_").
  - destruct (bool_decide (mode l = "http")).
    + by destruct (emitInOrder _ _ _ _ _).
    + destruct (bool_decide (mode l = "tcp")); [|done].
      by destruct (hostnameBackends l !! "_").
Qed.



Lemma frontEndsOfIP_inPlace listenIP inner :
  mapRel listenerInPlace inner (frontEndsOfIP listenIP inner).1.
Proof. apply (forEach_rel _ _), frontEnd_inPlace. Qed.



(** ** Sorting in place does not change the text *)

Lemma ipOrder_NoDup h : NoDup (ipOrder h).
Proof. unfold ipOrder. rewrite sortStrings_Permutation. apply NoDup_elements. Qed.

Lemma portOrder_NoDup inner : NoDup (portOrder inner).
Proof. unfold portOrder. rewrite sortPorts_Permutation. apply NoDup_elements. Qed.

Lemma hostnameOrder_NoDup l : NoDup (hostnameOrder l).
Proof. unfold hostnameOrder. rewrite sortStrings_Permutation. apply NoDup_elements. Qed.

Lemma string_app_nil_r (s : string) : s +:+ "" = s.
Proof.
  induction s as [|c s IH]; [done|].
  change (String c (s +:+ "") = String c s). by rewrite IH.
Qed.

(** The text parts of the loop bodies, read off the listener as it is
    before the body sorts anything. *)
Lemma frontEnd_text listenIP port l :
  (frontEnd listenIP port l).2 = frontEndText listenIP port l.
Proof.
  unfold frontEnd, frontEndText, bindOptions, crtDirectives, hostnameOrder.
  destruct (useSSL l); cbn [mode name hostnameBackends sslCertificates].
  - rewrite sortStrings_idemp.
    destruct (bool_decide (mode l = "http")).
    { by destruct (emitInOrder _ _ _ _ _). }
    destruct (bool_decide (mode l = "tcp")); [|done].
    by destruct (hostnameBackends l !! "_").
  - rewrite string_app_nil_r.
    destruct (bool_decide (mode l = "http")).
    { by destruct (emitInOrder _ _ _ _ _). }
    destruct (bool_decide (mode l = "tcp")); [|done].
    by destruct (hostnameBackends l !! "_").
Qed.

Lemma backEnd_text listenerMode hostname b :
  (backEnd listenerMode hostname b).2 = backEndText listenerMode hostname b.
Proof. done. Qed.

Lemma backEndText_inPlace listenerMode hostname b b' :
  backendInPlace b b' →
  backEndText listenerMode hostname b = backEndText listenerMode hostname b'.
Proof.
  intros [Hn Hb Hu Hv Hs]. unfold backEndText, serverOrder, serverLine.
  rewrite Hn, Hb, Hu, Hv.
  destruct Hs as [->| ->]; by rewrite ?sortServers_idemp.
Qed.

Lemma backEndsText_inPlace port l l' :
  listenerInPlace l l' → backEndsText port l = backEndsText port l'.
Proof.
  intros [Hn Hm Hu Hc Hb]. unfold backEndsText, hostnameOrder.
  rewrite Hm, <-(mapRel_dom _ _ _ Hb).
  eapply emitInOrder_rel; [done|]. intros. by apply backEndText_inPlace.
Qed.

Lemma frontEndText_inPlace listenIP port l l' :
  listenerInPlace l l' → frontEndText listenIP port l = frontEndText listenIP port l'.
Proof.
  intros [Hn Hm Hu Hc Hb].
  unfold frontEndText, bindOptions, crtDirectives, hostnameOrder.
  assert (sortStrings (sslCertificates l') = sortStrings (sslCertificates l)) as ->.
  { destruct Hc as [->| ->]; by rewrite ?sortStrings_idemp. }
  rewrite Hn, Hm, Hu, <-(mapRel_dom _ _ _ Hb).
  destruct (bool_decide (mode l = "http")).
  { erewrite (emitInOrder_rel true backendInPlace _ _ _ _ _ _ Hb); [done|].
    intros k b b' [Hbn _ _ _ _]. unfold useBackendRules. by rewrite Hbn. }
  destruct (bool_decide (mode l = "tcp")); [|done].
  destruct (Hb "_") as [b b' [Hbn _ _ _ _]|]; [|done]. by rewrite Hbn.
Qed.


(** ** [Render] produces the text of [RenderSpec] *)

Lemma backEndsOfListener_text port l : (backEndsOfListener port l).2 = backEndsText port l.
Proof.
  unfold backEndsOfListener, backEndsText.
  pose proof (forEach_text true (backEnd (mode l))
    (sortBackendMap (hostnameBackends l)) (hostnameBackends l) ""
    (hostnameOrder_NoDup l)) as Ht.
  by destruct (forEach _ _ _ _ _).
Qed.

Lemma frontEndsOfIP_text listenIP inner inner' :
  mapRel listenerInPlace inner inner' →
  (frontEndsOfIP listenIP inner').2 = frontEndsOfIPText listenIP inner.
Proof.
  intros Hm. unfold frontEndsOfIP, frontEndsOfIPText.
  rewrite forEach_text by apply portOrder_NoDup.
  unfold sortListenerMap, portOrder. rewrite <-(mapRel_dom _ _ _ Hm).
  symmetry. eapply emitInOrder_rel; [done|].
  intros k l l' Hl. rewrite frontEnd_text. by apply frontEndText_inPlace.
Qed.

Lemma backEndsOfIP_text listenIP inner inner' :
  mapRel listenerInPlace inner inner' →
  (backEndsOfIP listenIP inner').2 = backEndsOfIPText listenIP inner.
Proof.
  intros Hm. unfold backEndsOfIP, backEndsOfIPText.
  rewrite forEach_text by apply portOrder_NoDup.
  unfold sortListenerMap, portOrder. rewrite <-(mapRel_dom _ _ _ Hm).
  symmetry. eapply emitInOrder_rel; [done|].
  intros k l l' Hl. rewrite backEndsOfListener_text. by apply backEndsText_inPlace.
Qed.

Lemma Render_text h : (Render h).2 = RenderSpec h.
Proof.
  unfold Render, RenderSpec. rewrite collectIPs_sorted. fold (ipOrder h).
  pose proof (forEach_text false frontEndsOfIP (ipOrder h) (ipsOf h) ""
    (ipOrder_NoDup h)) as H1.
  pose proof (forEach_rel false _ frontEndsOfIP (ipOrder h) (ipsOf h) ""
    frontEndsOfIP_inPlace) as Hm1.
  rewrite (emitInOrder_rel false eq _ frontEndsOfIPText _ _ (ipsOf h)) in H1; cycle 1.
  { apply mapRel_refl, _. }
  { intros k v ? <-. apply frontEndsOfIP_text, mapRel_refl, _. }
  destruct (forEach false frontEndsOfIP _ _ _) as [m1 r1]. simpl in H1, Hm1. subst r1.
  destruct (emitInOrder false frontEndsOfIPText _ _ _) as [config|]; [|done].
  pose proof (forEach_text false backEndsOfIP (ipOrder h) m1 config
    (ipOrder_NoDup h)) as H2.
  destruct (forEach false backEndsOfIP _ _ _) as [m2 r2]. simpl in *. subst r2.
  symmetry. eapply emitInOrder_rel; [done|].
  intros k inner inner' Hin. symmetry. by apply backEndsOfIP_text.
Qed.

(** ** Stores with the same text per listener render the same *)

Lemma RenderSpec_sameText h h' :
  mapRel (mapRel sameText) (ipsOf h) (ipsOf h') → RenderSpec h = RenderSpec h'.
Proof.
  intros Hm. unfold RenderSpec, ipOrder. rewrite <-(mapRel_dom _ _ _ Hm).
  rewrite (emitInOrder_rel false _ _ frontEndsOfIPText _ _ (ipsOf h') _ Hm); cycle 1.
  { intros k inner inner' Hin. unfold frontEndsOfIPText, portOrder.
    rewrite <-(mapRel_dom _ _ _ Hin). eapply emitInOrder_rel; [done|].
    intros p l l' [Hf _]. apply Hf. }
  destruct (emitInOrder false frontEndsOfIPText _ _ _) as [config|]; [|done].
  eapply emitInOrder_rel; [done|].
  intros k inner inner' Hin. unfold backEndsOfIPText, portOrder.
  rewrite <-(mapRel_dom _ _ _ Hin). eapply emitInOrder_rel; [done|].
  intros p l l' [_ Hb]. apply Hb.
Qed.




(** ** Totality *)

Lemma elem_of_sortStrings x l : x ∈ sortStrings l ↔ x ∈ l.
Proof. by rewrite sortStrings_Permutation. Qed.

Lemma elem_of_sortPorts x l : x ∈ sortPorts l ↔ x ∈ l.
Proof. by rewrite sortPorts_Permutation. Qed.

Lemma frontEndText_total listenIP port l :
  (mode l = "tcp" → is_Some (hostnameBackends l !! "_")) →
  ∃ out, frontEndText listenIP port l = Ok out.
Proof.
  intros Htcp. unfold frontEndText.
  case_bool_decide as Hhttp.
  - edestruct (emitInOrder_total true (useBackendRules port) (hostnameOrder l)
                 (hostnameBackends l)) as [out ->]; [|by eauto].
    intros k Hk.
    apply elem_of_sortStrings, elem_of_elements, elem_of_dom in Hk as [b Hb].
    exists b. eexists. split; [done|]. reflexivity.
  - case_bool_decide as Htcp'; [|by eauto].
    destruct (Htcp Htcp') as [b ->]. eauto.
Qed.

Lemma backEndsText_total port l : ∃ out, backEndsText port l = Ok out.
Proof.
  apply emitInOrder_total. intros k Hk.
  apply elem_of_sortStrings, elem_of_elements, elem_of_dom in Hk as [b Hb].
  exists b. eexists. split; [done|]. reflexivity.
Qed.

Lemma RenderSpec_total h : tcpHasDefault h → ∃ out, RenderSpec h = Ok out.
Proof.
  intros Hinv. unfold RenderSpec.
  destruct (emitInOrder_total false frontEndsOfIPText (ipOrder h) (ipsOf h) "")
    as [config ->].
  { intros ip Hip.
    apply elem_of_sortStrings, elem_of_elements, elem_of_dom in Hip as [inner Hin].
    destruct (emitInOrder_total true (frontEndText ip) (portOrder inner) inner "")
      as [t Ht]; [|by eauto].
    intros port Hport.
    apply elem_of_sortPorts, elem_of_elements, elem_of_dom in Hport as [l Hl].
    destruct (frontEndText_total ip port l) as [t Ht]; [|by eauto].
    apply (Hinv ip port). unfold getListener. by rewrite Hin. }
  apply emitInOrder_total. intros ip Hip.
  apply elem_of_sortStrings, elem_of_elements, elem_of_dom in Hip as [inner Hin].
  destruct (emitInOrder_total true backEndsText (portOrder inner) inner "")
    as [t Ht]; [|by eauto].
  intros port Hport.
  apply elem_of_sortPorts, elem_of_elements, elem_of_dom in Hport as [l Hl].
  destruct (backEndsText_total port l) as [t Ht]. eauto.
Qed.

(** ** Facts about [validate] and [AddListener] *)

Lemma storeOf_ipsOf h : storeOf (ipsOf h) = h.
Proof. by destruct h as [[ips]]. Qed.

Lemma validate_spec hlc h :
  validate hlc h
  = (mkRequest (Name hlc) (Backend hlc) (Hostname hlc) (ListenIP hlc) (ListenPort hlc)
       (Mode hlc) (SslCertificate hlc)
       (validationErrors hlc ++ validationMessages hlc h),
     bool_decide (validationMessages hlc h = [])).
Proof.
  unfold validate, validationMessages, getListener, addValidationError, hasCertificate.
  destruct hlc as [n b hn ip port m c errs]; simpl.
  destruct (bool_decide (m ≠ "http") && bool_decide (m ≠ "tcp")); simpl;
    (destruct (ipsOf h !! ip) as [inner|]; simpl;
     [destruct (inner !! port) as [l|]; simpl;
      [destruct (bool_decide (mode l ≠ m)); simpl;
       destruct (bool_decide (useSSL l ≠ negb (bool_decide (c = "")))); simpl|]|]);
    rewrite <-?app_assoc, ?app_nil_r; done.
Qed.

Lemma getListener_setListener ips ip port l ip' port' :
  getListener (setListener ips ip port l) ip' port'
  = if decide (ip = ip' ∧ port = port') then Some l else getListener ips ip' port'.
Proof.
  unfold getListener, setListener.
  destruct (decide (ip = ip')) as [<-|Hip].
  - rewrite lookup_insert_eq. destruct (decide (port = port')) as [<-|Hport].
    + rewrite lookup_insert_eq. by rewrite decide_True.
    + rewrite lookup_insert_ne by done.
      rewrite decide_False by (intros [_ ?]; done).
      by destruct (ips !! ip).
  - rewrite lookup_insert_ne by done.
    rewrite decide_False by (intros [? _]; done). done.
Qed.

(** Creating the inner map first makes no difference once the listener is
    written. *)
Lemma setListener_ensured ips ip port l :
  setListener
    (match ips !! ip with None => <[ip := ∅]> ips | Some _ => ips end) ip port l
  = setListener ips ip port l.
Proof.
  unfold setListener. destruct (ips !! ip) eqn:Hip; [by rewrite Hip|].
  by rewrite lookup_insert_eq, insert_insert_eq.
Qed.

Lemma getListener_ensured ips ip ip' port' :
  getListener (match ips !! ip with None => <[ip := ∅]> ips | Some _ => ips end) ip' port'
  = getListener ips ip' port'.
Proof.
  unfold getListener. destruct (ips !! ip) eqn:Hip; [done|].
  destruct (decide (ip = ip')) as [<-|Hne].
  - by rewrite lookup_insert_eq, Hip.
  - by rewrite lookup_insert_ne.
Qed.

Lemma ensured_occupied ips ip port l :
  getListener ips ip port = Some l →
  match ips !! ip with None => <[ip := ∅]> ips | Some _ => ips end = ips.
Proof. unfold getListener. by destruct (ips !! ip). Qed.

(** The three ways a call can end. *)
Lemma AddListener_rejected h hlc :
  validationMessages hlc h ≠ [] →
  AddListener h hlc
  = (h, Rejected (Name hlc :: map (λ message, "  " +:+ message)
                                (validationErrors hlc ++ validationMessages hlc h))).
Proof.
  intros Hmsg. unfold AddListener. rewrite validate_spec.
  by rewrite bool_decide_false.
Qed.

Lemma AddListener_fatal h hlc l :
  validationMessages hlc h = [] →
  getListener (ipsOf h) (ListenIP hlc) (ListenPort hlc) = Some l →
  Mode hlc = "tcp" →
  AddListener h hlc = (h, Fatal [msgDuplicateTcp (ListenPort hlc)] msgPanic).
Proof.
  intros Hmsg Hl Htcp. unfold AddListener. rewrite validate_spec.
  rewrite bool_decide_true by done. cbn [ListenIP ListenPort Mode].
  rewrite getListener_ensured, Hl, bool_decide_true by done.
  by rewrite (ensured_occupied _ _ _ _ Hl), storeOf_ipsOf.
Qed.

Lemma AddListener_merged h hlc l :
  validationMessages hlc h = [] →
  getListener (ipsOf h) (ListenIP hlc) (ListenPort hlc) = Some l →
  Mode hlc ≠ "tcp" →
  AddListener h hlc
  = (storeOf (setListener (ipsOf h) (ListenIP hlc) (ListenPort hlc) (mergeInto hlc l)),
     Added).
Proof.
  intros Hmsg Hl Htcp. unfold AddListener. rewrite validate_spec.
  rewrite bool_decide_true by done. cbn [ListenIP ListenPort Mode].
  rewrite getListener_ensured, Hl, bool_decide_false by done.
  by rewrite setListener_ensured.
Qed.

Lemma AddListener_created h hlc :
  validationMessages hlc h = [] →
  getListener (ipsOf h) (ListenIP hlc) (ListenPort hlc) = None →
  AddListener h hlc
  = (storeOf (setListener (ipsOf h) (ListenIP hlc) (ListenPort hlc)
                (mergeInto hlc (newListener hlc))),
     Added).
Proof.
  intros Hmsg Hl. unfold AddListener. rewrite validate_spec.
  rewrite bool_decide_true by done. cbn [ListenIP ListenPort Mode].
  rewrite getListener_ensured, Hl.
  by rewrite setListener_ensured.
Qed.

Lemma validationMessages_mode hlc h :
  validationMessages hlc h = [] → Mode hlc = "http" ∨ Mode hlc = "tcp".
Proof.
  unfold validationMessages. intros Hmsg.
  destruct (decide (Mode hlc = "http")) as [|Hh]; [by left|].
  destruct (decide (Mode hlc = "tcp")) as [|Ht]; [by right|].
  by rewrite !bool_decide_true in Hmsg by done.
Qed.

Lemma validationMessages_occupied hlc h l :
  validationMessages hlc h = [] →
  getListener (ipsOf h) (ListenIP hlc) (ListenPort hlc) = Some l →
  mode l = Mode hlc ∧ useSSL l = hasCertificate hlc.
Proof.
  unfold validationMessages. intros Hmsg Hl. rewrite Hl in Hmsg.
  apply app_eq_nil in Hmsg as [_ Hmsg]. apply app_eq_nil in Hmsg as [Hm Hs].
  split.
  - destruct (decide (mode l = Mode hlc)); [done|]. by rewrite bool_decide_true in Hm.
  - destruct (decide (useSSL l = hasCertificate hlc)); [done|].
    by rewrite bool_decide_true in Hs.
Qed.

(** ** The certificate loop *)

Lemma crtLoop_elem_of previous certificates x :
  StronglySorted String.le certificates →
  Forall (String.le previous) certificates →
  x ∈ crtLoop previous certificates ↔ x ∈ certificates ∧ x ≠ previous.
Proof.
  intros Hs. revert previous.
  induction Hs as [|c rest Hs IH Hc]; intros previous Hp; simpl.
  { rewrite elem_of_nil. tauto. }
  apply Forall_cons in Hp as [Hpc Hp].
  case_bool_decide as Hne.
  - rewrite !elem_of_cons, IH by done. split.
    + intros [->|[Hx Hxc]]; [by auto|]. split; [by auto|].
      intros ->. apply Hne. apply (anti_symm String.le); [done|].
      by eapply Forall_forall in Hc.
    + intros [[->|Hx] Hxp]; [by left|].
      destruct (decide (x = c)) as [->|]; auto.
  - subst c. rewrite elem_of_cons, IH by done. tauto.
Qed.

Lemma crtLoop_sorted previous certificates :
  StronglySorted String.le certificates →
  Forall (String.le previous) certificates →
  StronglySorted (strict String.le) (crtLoop previous certificates).
Proof.
  intros Hs. revert previous.
  induction Hs as [|c rest Hs IH Hc]; intros previous Hp; simpl; [constructor|].
  apply Forall_cons in Hp as [Hpc Hp].
  case_bool_decide as Hne; [|by apply IH].
  constructor; [by apply IH|].
  apply Forall_forall. intros x Hx.
  apply crtLoop_elem_of in Hx as [Hx Hxc]; [|done..].
  eapply Forall_forall in Hc; [|done].
  split; [done|]. intros Hxc'. apply Hxc. by apply (anti_symm String.le).
Qed.

Lemma strict_sorted_NoDup (l : list string) :
  StronglySorted (strict String.le) l → NoDup l.
Proof.
  induction 1 as [|x l Hs IH Hx]; constructor; [|done].
  intros Hin. eapply Forall_forall in Hx; [|done]. by destruct Hx as [? []].
Qed.

Lemma sortStrings_StronglySorted l : StronglySorted String.le (sortStrings l).
Proof. apply Sorted_StronglySorted; [apply _|apply sortStrings_Sorted]. Qed.

Lemma crtLoop_after_sort_elem_of l x :
  x ∈ crtLoop "" (sortStrings l) ↔ x ∈ l ∧ x ≠ "".
Proof.
  rewrite crtLoop_elem_of, elem_of_sortStrings; [done|apply sortStrings_StronglySorted|].
  apply Forall_forall. intros. apply string_le_least.
Qed.

Lemma crtLoop_after_sort_sorted l :
  StronglySorted (strict String.le) (crtLoop "" (sortStrings l)).
Proof.
  apply crtLoop_sorted; [apply sortStrings_StronglySorted|].
  apply Forall_forall. intros. apply string_le_least.
Qed.

Lemma crtLoop_after_sort_NoDup l : NoDup (crtLoop "" (sortStrings l)).
Proof. apply strict_sorted_NoDup, crtLoop_after_sort_sorted. Qed.

(** The directives depend on the set of stored names only. *)
Lemma crtLoop_after_sort_ext l l' :
  (∀ x, x ∈ l ↔ x ∈ l') →
  crtLoop "" (sortStrings l) = crtLoop "" (sortStrings l').
Proof.
  intros Hll'.
  apply (StronglySorted_unique_strong (strict String.le));
    [|apply crtLoop_after_sort_sorted..|].
  - intros x1 x2 _ _ [_ H1] [H2 _]. done.
  - apply NoDup_Permutation; [apply crtLoop_after_sort_NoDup..|].
    intros x. rewrite !crtLoop_after_sort_elem_of. specialize (Hll' x). tauto.
Qed.

Lemma crtDirectives_count l c :
  c ∈ sslCertificates l → c ≠ "" → count_occ String.string_dec (crtDirectives l) c = 1.
Proof.
  intros Hc Hne. unfold crtDirectives.
  apply NoDup_count_occ'.
  - apply NoDup_ListNoDup, crtLoop_after_sort_NoDup.
  - apply list_elem_of_In, crtLoop_after_sort_elem_of. done.
Qed.

(** ** What a call of [AddListener] does to the listeners *)

Lemma ipsOf_storeOf ips : ipsOf (storeOf ips) = ips.
Proof. done. Qed.

Lemma AddListener_getListener h hlc ip port l' :
  getListener (ipsOf (AddListener h hlc).1) ip port = Some l' →
  getListener (ipsOf h) ip port = Some l'
  ∨ (validationMessages hlc h = []
     ∧ ∃ l0, l' = mergeInto hlc l0
        ∧ (l0 = newListener hlc
           ∨ (getListener (ipsOf h) (ListenIP hlc) (ListenPort hlc) = Some l0
              ∧ Mode hlc ≠ "tcp"))).
Proof.
  destruct (decide (validationMessages hlc h = [])) as [Hmsg|Hmsg];
    [|rewrite AddListener_rejected by done; by left].
  destruct (getListener (ipsOf h) (ListenIP hlc) (ListenPort hlc)) as [l0|] eqn:Hl0.
  - destruct (decide (Mode hlc = "tcp")) as [Htcp|Htcp].
    { erewrite AddListener_fatal by done. by left. }
    erewrite AddListener_merged by done. simpl.
    rewrite ipsOf_storeOf, getListener_setListener. case_decide; [|by left].
    intros [= <-]. right. eauto 10.
  - rewrite AddListener_created by done. simpl.
    rewrite ipsOf_storeOf, getListener_setListener. case_decide; [|by left].
    intros [= <-]. right. eauto 10.
Qed.

Lemma getListener_Initialize ip port : getListener (ipsOf Initialize) ip port = None.
Proof. done. Qed.

Lemma reachable_tcpHasDefault h : reachable h → tcpHasDefault h.
Proof.
  induction 1 as [|h hlc Hh IH]; intros ip port l Hl Htcp.
  { by rewrite getListener_Initialize in Hl. }
  apply AddListener_getListener in Hl as [Hl|(Hmsg & l0 & -> & Hl0)]; [by eauto|].
  simpl in *. destruct Hl0 as [->|[Hl0 Hne]].
  - simpl in Htcp. rewrite bool_decide_true by done. by rewrite lookup_insert_eq.
  - destruct (validationMessages_occupied _ _ _ Hmsg Hl0) as [Hmode _]. congruence.
Qed.

Lemma reachable_certificatesNamed h : reachable h → certificatesNamed h.
Proof.
  induction 1 as [|h hlc Hh IH]; intros ip port l Hl.
  { by rewrite getListener_Initialize in Hl. }
  apply AddListener_getListener in Hl as [Hl|(Hmsg & l0 & -> & Hl0)]; [by eauto|].
  assert ("" ∉ sslCertificates l0) as Hl0'.
  { destruct Hl0 as [->|[Hl0 _]]; [apply not_elem_of_nil|by eauto]. }
  unfold mergeInto, hasCertificate. simpl. case_bool_decide as Hc; simpl; [done|].
  rewrite elem_of_app, list_elem_of_singleton. intros [Hin|Heq]; [done|congruence].
Qed.

(** ** Adding the same request again *)

#[export] Instance sameText_refl : Reflexive sameText.
Proof. by intros l. Qed.

Lemma mapRel_setListener (R : haproxyListener → haproxyListener → Prop)
    `{!Reflexive R} ips ip port l l' :
  getListener ips ip port = Some l → R l l' →
  mapRel (mapRel R) ips (setListener ips ip port l').
Proof.
  unfold getListener, setListener. intros Hl HR.
  destruct (ips !! ip) as [inner|] eqn:Hin; [|done].
  eapply mapRel_insert; [intros m; apply mapRel_refl, _|done|].
  simpl. by eapply mapRel_insert.
Qed.

Lemma mergeInto_again_sameText hlc l :
  sameText (mergeInto hlc l) (mergeInto hlc (mergeInto hlc l)).
Proof.
  assert (crtDirectives (mergeInto hlc l) = crtDirectives (mergeInto hlc (mergeInto hlc l)))
    as Hcrt.
  { unfold crtDirectives, mergeInto. simpl.
    destruct (hasCertificate hlc); [|done].
    apply crtLoop_after_sort_ext. intros x. rewrite !elem_of_app. tauto. }
  split; intros.
  - unfold frontEndText, bindOptions, hostnameOrder. rewrite <-Hcrt.
    unfold mergeInto. simpl. by rewrite insert_insert_eq.
  - unfold backEndsText, hostnameOrder, mergeInto. simpl. by rewrite insert_insert_eq.
Qed.

Lemma validationMessages_again h hlc l0 :
  validationMessages hlc h = [] →
  mode l0 = Mode hlc → useSSL l0 = hasCertificate hlc →
  validationMessages hlc
    (storeOf (setListener (ipsOf h) (ListenIP hlc) (ListenPort hlc) (mergeInto hlc l0)))
  = [].
Proof.
  unfold validationMessages. intros Hmsg Hmode Hssl.
  apply app_eq_nil in Hmsg as [-> _]. simpl.
  rewrite ipsOf_storeOf, getListener_setListener, decide_True by done. simpl.
  by rewrite !bool_decide_false by (intros Hne; by apply Hne).
Qed.

Lemma AddListener_again h hlc l0 :
  validationMessages hlc h = [] →
  Mode hlc ≠ "tcp" →
  mode l0 = Mode hlc → useSSL l0 = hasCertificate hlc →
  let h1 := storeOf (setListener (ipsOf h) (ListenIP hlc) (ListenPort hlc)
                       (mergeInto hlc l0)) in
  ∃ h2, AddListener h1 hlc = (h2, Added) ∧ RenderSpec h2 = RenderSpec h1.
Proof.
  intros Hmsg Htcp Hmode Hssl h1.
  assert (getListener (ipsOf h1) (ListenIP hlc) (ListenPort hlc)
          = Some (mergeInto hlc l0)) as Hl1.
  { unfold h1. by rewrite ipsOf_storeOf, getListener_setListener, decide_True. }
  eexists. split.
  { eapply AddListener_merged; [|exact Hl1|exact Htcp].
    by apply validationMessages_again. }
  symmetry. apply RenderSpec_sameText. rewrite ipsOf_storeOf.
  apply (mapRel_setListener sameText _ _ _ _ _ Hl1), mergeInto_again_sameText.
Qed.

(** ** The properties of the specification *)

Lemma AddListener_Added_inv h hlc h' :
  AddListener h hlc = (h', Added) →
  validationMessages hlc h = []
  ∧ ∃ l0, h' = storeOf (setListener (ipsOf h) (ListenIP hlc) (ListenPort hlc)
                          (mergeInto hlc l0))
      ∧ (getListener (ipsOf h) (ListenIP hlc) (ListenPort hlc) = None
           ∧ l0 = newListener hlc
         ∨ getListener (ipsOf h) (ListenIP hlc) (ListenPort hlc) = Some l0
           ∧ Mode hlc ≠ "tcp").
Proof.
  destruct (decide (validationMessages hlc h = [])) as [Hmsg|Hmsg];
    [|by rewrite AddListener_rejected].
  destruct (getListener (ipsOf h) (ListenIP hlc) (ListenPort hlc)) as [l0|] eqn:Hl0.
  - destruct (decide (Mode hlc = "tcp")) as [Htcp|Htcp].
    { by erewrite AddListener_fatal. }
    erewrite AddListener_merged by done. intros [= <-]. eauto 10.
  - rewrite AddListener_created by done. intros [= <-]. eauto 10.
Qed.

(** C1: on an occupied (IP, port), a tcp request that passes validation takes
    the panic path: the call ends in [Fatal], which is not the [Rejected]
    outcome of a validation failure, and the store is as it was. *)
Theorem AddListener_occupied_tcp_is_fatal h hlc l :
  getListener (ipsOf h) (ListenIP hlc) (ListenPort hlc) = Some l →
  Mode hlc = "tcp" →
  (validate hlc h).2 = true →
  AddListener h hlc = (h, Fatal [msgDuplicateTcp (ListenPort hlc)] msgPanic)
  ∧ ∀ printed, (AddListener h hlc).2 ≠ Rejected printed.
Proof.
  intros Hl Htcp Hvalid. rewrite validate_spec in Hvalid. simpl in Hvalid.
  apply bool_decide_eq_true in Hvalid.
  rewrite (AddListener_fatal h hlc l) by done. by split.
Qed.

Lemma AddListener_occupied_tcp_is_fatal_witness :
  getListener (ipsOf dbStore) (ListenIP dbRequest) (ListenPort dbRequest)
    = Some (mergeInto dbRequest (newListener dbRequest))
  ∧ Mode dbRequest = "tcp"
  ∧ (validate dbRequest dbStore).2 = true
  ∧ AddListener dbStore dbRequest
      = (dbStore, Fatal [msgDuplicateTcp (ListenPort dbRequest)] msgPanic)
  ∧ ∀ printed, (AddListener dbStore dbRequest).2 ≠ Rejected printed.
Proof.
  split; [vm_compute; reflexivity|].
  split; [reflexivity|].
  split; [vm_compute; reflexivity|].
  apply (AddListener_occupied_tcp_is_fatal dbStore dbRequest
           (mergeInto dbRequest (newListener dbRequest)));
    vm_compute; reflexivity.
Defined.

(** C3: on an occupied (IP, port) the mode check and the SSL check each add
    their own message, whatever the other does; validation fails exactly when
    some check fails; and a failed validation ends the call with the
    accumulated messages printed and the store as it was. *)
Theorem validate_checks_independent_reject_atomic h hlc l :
  getListener (ipsOf h) (ListenIP hlc) (ListenPort hlc) = Some l →
  validationErrors (validate hlc h).1
  = validationErrors hlc
    ++ (if bool_decide (Mode hlc ≠ "http") && bool_decide (Mode hlc ≠ "tcp")
        then [msgInvalidMode (Mode hlc)] else [])
    ++ (if bool_decide (mode l ≠ Mode hlc) then [msgModeMismatch] else [])
    ++ (if bool_decide (useSSL l ≠ hasCertificate hlc) then [msgSslMismatch] else [])
  ∧ ((validate hlc h).2 = false ↔
       (Mode hlc ≠ "http" ∧ Mode hlc ≠ "tcp")
       ∨ mode l ≠ Mode hlc ∨ useSSL l ≠ hasCertificate hlc)
  ∧ ((validate hlc h).2 = false →
       AddListener h hlc
       = (h, Rejected (Name hlc :: map (λ message, "  " +:+ message)
                                     (validationErrors (validate hlc h).1)))).
Proof.
  intros Hl. rewrite validate_spec. cbn [fst snd validationErrors].
  split; [|split].
  - unfold validationMessages. by rewrite Hl.
  - rewrite bool_decide_eq_false. unfold validationMessages. rewrite Hl.
    destruct (decide (Mode hlc = "http")) as [Hh|Hh];
      destruct (decide (Mode hlc = "tcp")) as [Ht|Ht];
      destruct (decide (mode l = Mode hlc)) as [Hm|Hm];
      destruct (decide (useSSL l = hasCertificate hlc)) as [Hs|Hs];
      rewrite ?(bool_decide_true (Mode hlc ≠ "http")),
              ?(bool_decide_false (Mode hlc ≠ "http")),
              ?(bool_decide_true (Mode hlc ≠ "tcp")),
              ?(bool_decide_false (Mode hlc ≠ "tcp")),
              ?(bool_decide_true (mode l ≠ Mode hlc)),
              ?(bool_decide_false (mode l ≠ Mode hlc)),
              ?(bool_decide_true (useSSL l ≠ hasCertificate hlc)),
              ?(bool_decide_false (useSSL l ≠ hasCertificate hlc)) by tauto;
      simpl; split; try tauto; try discriminate; intros _; tauto.
  - intros Hfail%bool_decide_eq_false. by apply AddListener_rejected.
Qed.

Lemma validate_checks_independent_reject_atomic_witness :
  getListener (ipsOf webStore) (ListenIP clashRequest) (ListenPort clashRequest)
    = Some (mergeInto webRequest (newListener webRequest))
  ∧ validationErrors (validate clashRequest webStore).1
    = validationErrors clashRequest
      ++ (if bool_decide (Mode clashRequest ≠ "http")
             && bool_decide (Mode clashRequest ≠ "tcp")
          then [msgInvalidMode (Mode clashRequest)] else [])
      ++ (if bool_decide (mode (mergeInto webRequest (newListener webRequest))
                          ≠ Mode clashRequest)
          then [msgModeMismatch] else [])
      ++ (if bool_decide (useSSL (mergeInto webRequest (newListener webRequest))
                          ≠ hasCertificate clashRequest)
          then [msgSslMismatch] else [])
  ∧ ((validate clashRequest webStore).2 = false ↔
       (Mode clashRequest ≠ "http" ∧ Mode clashRequest ≠ "tcp")
       ∨ mode (mergeInto webRequest (newListener webRequest)) ≠ Mode clashRequest
       ∨ useSSL (mergeInto webRequest (newListener webRequest))
         ≠ hasCertificate clashRequest)
  ∧ ((validate clashRequest webStore).2 = false →
       AddListener webStore clashRequest
       = (webStore,
          Rejected (Name clashRequest
                    :: map (λ message, "  " +:+ message)
                         (validationErrors (validate clashRequest webStore).1)))).
Proof.
  split; [vm_compute; reflexivity|].
  apply (validate_checks_independent_reject_atomic webStore clashRequest
           (mergeInto webRequest (newListener webRequest))).
  vm_compute; reflexivity.
Defined.

(** Both messages of the request above, in one call. *)
Example clashRequest_reports_both :
  AddListener webStore clashRequest
  = (webStore, Rejected ["web-tcp"; "  " +:+ msgModeMismatch; "  " +:+ msgSslMismatch]).
Proof. vm_compute. reflexivity. Qed.

(** C7: a request whose mode is neither http nor tcp fails validation and
    leaves the store as it was, whatever the store holds. *)
Theorem AddListener_invalid_mode_rejected h hlc :
  Mode hlc ≠ "http" → Mode hlc ≠ "tcp" →
  (validate hlc h).2 = false
  ∧ AddListener h hlc
    = (h, Rejected (Name hlc :: map (λ message, "  " +:+ message)
                                  (validationErrors (validate hlc h).1)))
  ∧ msgInvalidMode (Mode hlc) ∈ validationErrors (validate hlc h).1.
Proof.
  intros Hh Ht. rewrite validate_spec. cbn [fst snd validationErrors].
  assert (msgInvalidMode (Mode hlc) ∈ validationMessages hlc h) as Hin.
  { unfold validationMessages. rewrite !bool_decide_true by done. simpl. by left. }
  assert (validationMessages hlc h ≠ []) as Hne.
  { intros Hnil. rewrite Hnil in Hin. by apply elem_of_nil in Hin. }
  split; [by apply bool_decide_eq_false|].
  split; [by apply AddListener_rejected|].
  apply elem_of_app. by right.
Qed.

Lemma AddListener_invalid_mode_rejected_witness :
  Mode ftpRequest ≠ "http" ∧ Mode ftpRequest ≠ "tcp"
  ∧ (validate ftpRequest webStore).2 = false
  ∧ AddListener webStore ftpRequest
    = (webStore,
       Rejected (Name ftpRequest
                 :: map (λ message, "  " +:+ message)
                      (validationErrors (validate ftpRequest webStore).1)))
  ∧ msgInvalidMode (Mode ftpRequest) ∈ validationErrors (validate ftpRequest webStore).1.
Proof.
  split; [discriminate|]. split; [discriminate|].
  apply (AddListener_invalid_mode_rejected webStore ftpRequest); discriminate.
Defined.

(** C6: the configuration rendered for the single http request [webRequest]:
    a frontend bound to 0.0.0.0:80 in http mode with the two use_backend
    rules, and the backend block with its balance method and server line. *)
Theorem Render_web_example : renderAfter Initialize [webRequest] = Ok webConfig.
Proof. vm_compute. reflexivity. Qed.

(** C5: after two accepted requests that supply the same certificate for one
    (IP, port), the listener uses SSL and the options of its bind line, which
    are [ssl] followed by one [crt] directive per element of [crtDirectives],
    name that certificate exactly once. *)
Theorem same_certificate_twice_one_crt h hlc1 hlc2 h1 h2 :
  ListenIP hlc2 = ListenIP hlc1 → ListenPort hlc2 = ListenPort hlc1 →
  SslCertificate hlc1 ≠ "" → SslCertificate hlc2 = SslCertificate hlc1 →
  AddListener h hlc1 = (h1, Added) → AddListener h1 hlc2 = (h2, Added) →
  ∃ l, getListener (ipsOf h2) (ListenIP hlc1) (ListenPort hlc1) = Some l
    ∧ count_occ String.string_dec (crtDirectives l) (SslCertificate hlc1) = 1
    ∧ bindOptions l
      = " ssl"
        +:+ concatStrings
              (map (λ certificate, " crt " +:+ certificate) (crtDirectives l))
        +:+ nl +:+ "    reqadd x-forwarded-proto:\ https"
    ∧ (frontEnd (ListenIP hlc1) (ListenPort hlc1) l).2
      = frontEndText (ListenIP hlc1) (ListenPort hlc1) l.
Proof.
  intros Hip Hport Hc Hc2 Hadd1 Hadd2.
  apply AddListener_Added_inv in Hadd1 as (Hmsg1 & l0 & -> & Hl0).
  apply AddListener_Added_inv in Hadd2 as (Hmsg2 & l1 & -> & Hl1).
  rewrite Hip, Hport, !ipsOf_storeOf in *.
  rewrite getListener_setListener, decide_True in Hl1 by done.
  destruct Hl1 as [[? _]|[[= <-] Htcp2]]; [done|].
  assert (hasCertificate hlc1 = true) as Hhas1.
  { unfold hasCertificate. by rewrite bool_decide_false. }
  assert (hasCertificate hlc2 = true) as Hhas2.
  { unfold hasCertificate. rewrite Hc2. by rewrite bool_decide_false. }
  destruct (validationMessages_occupied hlc2 _ (mergeInto hlc1 l0) Hmsg2)
    as [Hmode Hssl].
  { by rewrite ipsOf_storeOf, Hip, Hport, getListener_setListener, decide_True. }
  exists (mergeInto hlc2 (mergeInto hlc1 l0)).
  split; [by rewrite getListener_setListener, decide_True|].
  split; [|split; [|apply frontEnd_text]].
  - apply crtDirectives_count; [|done].
    unfold mergeInto. simpl. rewrite Hhas1, Hhas2, Hc2, !elem_of_app.
    right. by apply list_elem_of_singleton.
  - unfold bindOptions. cbn [mergeInto useSSL mode] in *.
    rewrite Hssl, Hhas2, Hmode.
    destruct (validationMessages_mode _ _ Hmsg2) as [->|Htcp]; [done|].
    by destruct Htcp2.
Qed.

Lemma same_certificate_twice_one_crt_witness :
  ListenIP (shopRequest "a.pem") = ListenIP (shopRequest "a.pem")
  ∧ ListenPort (shopRequest "a.pem") = ListenPort (shopRequest "a.pem")
  ∧ SslCertificate (shopRequest "a.pem") ≠ ""
  ∧ SslCertificate (shopRequest "a.pem") = SslCertificate (shopRequest "a.pem")
  ∧ AddListener Initialize (shopRequest "a.pem")
    = ((AddListener Initialize (shopRequest "a.pem")).1, Added)
  ∧ AddListener (AddListener Initialize (shopRequest "a.pem")).1 (shopRequest "a.pem")
    = (shopStoreTwice, Added)
  ∧ ∃ l, getListener (ipsOf shopStoreTwice) (ListenIP (shopRequest "a.pem"))
           (ListenPort (shopRequest "a.pem")) = Some l
      ∧ count_occ String.string_dec (crtDirectives l)
          (SslCertificate (shopRequest "a.pem")) = 1
      ∧ bindOptions l
        = " ssl"
          +:+ concatStrings
                (map (λ certificate, " crt " +:+ certificate) (crtDirectives l))
          +:+ nl +:+ "    reqadd x-forwarded-proto:\ https"
      ∧ (frontEnd (ListenIP (shopRequest "a.pem")) (ListenPort (shopRequest "a.pem")) l).2
        = frontEndText (ListenIP (shopRequest "a.pem"))
            (ListenPort (shopRequest "a.pem")) l.
Proof.
  split; [reflexivity|]. split; [reflexivity|]. split; [discriminate|].
  split; [reflexivity|].
  split; [vm_compute; reflexivity|]. split; [vm_compute; reflexivity|].
  apply (same_certificate_twice_one_crt Initialize (shopRequest "a.pem")
           (shopRequest "a.pem") (AddListener Initialize (shopRequest "a.pem")).1
           shopStoreTwice);
    try reflexivity; try discriminate; vm_compute; reflexivity.
Defined.

(** C9, as the code has it: the stored certificate list keeps every name it
    was given; the set semantics are those of the rendered directives, which
    hold each stored name once. *)
Theorem stored_certificates_collapse_when_rendered h ip port l :
  reachable h →
  getListener (ipsOf h) ip port = Some l →
  NoDup (crtDirectives l) ∧ ∀ c, c ∈ crtDirectives l ↔ c ∈ sslCertificates l.
Proof.
  intros Hh Hl. split; [apply crtLoop_after_sort_NoDup|].
  intros c. unfold crtDirectives. rewrite crtLoop_after_sort_elem_of.
  pose proof (reachable_certificatesNamed h Hh ip port l Hl) as Hnamed.
  split; [tauto|]. intros Hc. split; [done|]. by intros ->.
Qed.

Lemma shopStoreTwice_reachable : reachable shopStoreTwice.
Proof. apply reachable_add, reachable_add, reachable_init. Qed.

Lemma stored_certificates_collapse_when_rendered_witness :
  reachable shopStoreTwice
  ∧ getListener (ipsOf shopStoreTwice) "0.0.0.0" 443%N
    = Some (mergeInto (shopRequest "a.pem")
              (mergeInto (shopRequest "a.pem") (newListener (shopRequest "a.pem"))))
  ∧ NoDup (crtDirectives
             (mergeInto (shopRequest "a.pem")
                (mergeInto (shopRequest "a.pem") (newListener (shopRequest "a.pem")))))
  ∧ ∀ c, c ∈ crtDirectives
               (mergeInto (shopRequest "a.pem")
                  (mergeInto (shopRequest "a.pem") (newListener (shopRequest "a.pem"))))
         ↔ c ∈ sslCertificates
               (mergeInto (shopRequest "a.pem")
                  (mergeInto (shopRequest "a.pem") (newListener (shopRequest "a.pem")))).
Proof.
  split; [apply reachable_add, reachable_add, reachable_init|].
  split; [vm_compute; reflexivity|].
  apply (stored_certificates_collapse_when_rendered shopStoreTwice "0.0.0.0" 443%N).
  - apply reachable_add, reachable_add, reachable_init.
  - vm_compute; reflexivity.
Defined.

(** C9, as stated, fails: the same name supplied twice is stored twice. *)
Lemma stored_certificates_keep_duplicates :
  reachable shopStoreTwice
  ∧ ∃ l, getListener (ipsOf shopStoreTwice) "0.0.0.0" 443%N = Some l
      ∧ sslCertificates l = ["a.pem"; "a.pem"]
      ∧ ¬ NoDup (sslCertificates l).
Proof.
  split; [apply shopStoreTwice_reachable|].
  eexists. split; [vm_compute; reflexivity|]. split; [reflexivity|].
  intros Hnd. apply NoDup_cons in Hnd as [Hin _]. apply Hin. by left.
Qed.

(** C10: a store in which every tcp listener has a backend under the key "_"
    renders: the call returns a text and does not panic. *)
Theorem Render_total h : tcpHasDefault h → ∃ h' out, Render h = (h', Ok out).
Proof.
  intros Hinv. destruct (RenderSpec_total h Hinv) as [out Hout].
  exists (Render h).1, out. rewrite <-Hout, <-Render_text.
  by destruct (Render h).
Qed.

Lemma Render_total_witness :
  tcpHasDefault dbStore ∧ ∃ h' out, Render dbStore = (h', Ok out).
Proof.
  split.
  - apply reachable_tcpHasDefault, reachable_add, reachable_init.
  - apply (Render_total dbStore).
    apply reachable_tcpHasDefault, reachable_add, reachable_init.
Defined.

(** The precondition matters: a tcp listener without that backend makes
    [Render] panic. *)
Example Render_panics_without_default :
  (Render (storeOf {[ "10.0.0.1" := {[ 3306%N := newListener dbRequest ]} ]})).2 = Panic.
Proof. vm_compute. reflexivity. Qed.



(** C4, as the code has it: adding a request twice renders the same text as
    adding it once, unless it is a tcp request that the first call accepts. *)
Theorem AddListener_twice_same_render h hlc :
  (Mode hlc = "tcp" → (AddListener h hlc).2 ≠ Added) →
  renderAfter h [hlc; hlc] = renderAfter h [hlc].
Proof.
  intros Hguard. unfold renderAfter. simpl.
  destruct (decide (validationMessages hlc h = [])) as [Hmsg|Hmsg];
    [|by rewrite !AddListener_rejected].
  destruct (decide (Mode hlc = "tcp")) as [Htcp|Htcp].
  { specialize (Hguard Htcp).
    destruct (getListener (ipsOf h) (ListenIP hlc) (ListenPort hlc)) as [l0|] eqn:Hl0.
    - by erewrite AddListener_fatal.
    - by rewrite AddListener_created in Hguard. }
  assert (∃ l0, AddListener h hlc
                = (storeOf (setListener (ipsOf h) (ListenIP hlc) (ListenPort hlc)
                              (mergeInto hlc l0)), Added)
                ∧ mode l0 = Mode hlc ∧ useSSL l0 = hasCertificate hlc)
    as (l0 & -> & Hmode & Hssl).
  { destruct (getListener (ipsOf h) (ListenIP hlc) (ListenPort hlc)) as [l0|] eqn:Hl0.
    - exists l0. split; [by apply AddListener_merged|].
      by apply validationMessages_occupied with h.
    - exists (newListener hlc). split; [by apply AddListener_created|done]. }
  destruct (AddListener_again h hlc l0 Hmsg Htcp Hmode Hssl) as (h2 & -> & Hsame).
  by rewrite !Render_text.
Qed.

Lemma AddListener_twice_same_render_witness :
  (Mode (shopRequest "a.pem") = "tcp" →
   (AddListener Initialize (shopRequest "a.pem")).2 ≠ Added)
  ∧ renderAfter Initialize [shopRequest "a.pem"; shopRequest "a.pem"]
    = renderAfter Initialize [shopRequest "a.pem"].
Proof.
  split; [discriminate|].
  apply (AddListener_twice_same_render Initialize (shopRequest "a.pem")). discriminate.
Defined.

(** C4, as stated, fails for tcp: the second identical request panics, so
    nothing is rendered, while one request alone renders. *)
Lemma AddListener_twice_tcp_panics :
  renderAfter Initialize [dbRequest; dbRequest] = Panic
  ∧ renderAfter Initialize [dbRequest; dbRequest] ≠ renderAfter Initialize [dbRequest].
Proof. split; [vm_compute; reflexivity|]. vm_compute. discriminate. Qed.


(** ** More about [AddListener]: outcomes, frame and monotonicity *)

(** A request is accepted exactly when its mode is one of the two known ones
    and its (IP, port) is free or held by an http listener with the same SSL
    usage that the http request joins. *)
Theorem AddListener_Added_iff h hlc :
  (AddListener h hlc).2 = Added ↔
    (Mode hlc = "http" ∨ Mode hlc = "tcp")
    ∧ match getListener (ipsOf h) (ListenIP hlc) (ListenPort hlc) with
      | None => True
      | Some l => Mode hlc = "http" ∧ mode l = "http" ∧ useSSL l = hasCertificate hlc
      end.
Proof.
  split.
  - intros Hadded.
    destruct (AddListener h hlc) as [h' o] eqn:Hadd. simpl in Hadded. subst o.
    apply AddListener_Added_inv in Hadd as (Hmsg & l0 & _ & Hl0).
    pose proof (validationMessages_mode _ _ Hmsg) as Hmode.
    split; [done|].
    destruct Hl0 as [[-> _]|[Hl0 Htcp]]; [done|]. rewrite Hl0.
    destruct (validationMessages_occupied _ _ _ Hmsg Hl0) as [Hm Hs].
    destruct Hmode as [Hhttp|Htcp']; [|done]. by rewrite Hm.
  - intros [Hmode Hl].
    assert (validationMessages hlc h = []) as Hmsg.
    { unfold validationMessages.
      assert (bool_decide (Mode hlc ≠ "http") && bool_decide (Mode hlc ≠ "tcp") = false)
        as ->.
      { destruct Hmode as [-> | ->]; reflexivity. }
      destruct (getListener _ _ _) as [l|]; [|done].
      destruct Hl as (Hhttp & Hm & Hs).
      rewrite !bool_decide_false; [done|intros Hne; by apply Hne..|];
        intros Hne; apply Hne; congruence. }
    destruct (getListener _ _ _) as [l|] eqn:Hl0.
    + destruct Hl as (Hhttp & _). erewrite AddListener_merged; [done..|].
      rewrite Hhttp. discriminate.
    + by rewrite AddListener_created.
Qed.

Lemma AddListener_not_Added h hlc :
  (AddListener h hlc).2 ≠ Added → (AddListener h hlc).1 = h.
Proof.
  destruct (decide (validationMessages hlc h = [])) as [Hmsg|Hmsg];
    [|by rewrite AddListener_rejected].
  destruct (getListener (ipsOf h) (ListenIP hlc) (ListenPort hlc)) as [l|] eqn:Hl;
    [|by rewrite AddListener_created].
  destruct (decide (Mode hlc = "tcp")) as [Htcp|Htcp];
    [by erewrite AddListener_fatal|by erewrite AddListener_merged].
Qed.

(** The panic is reserved for a tcp request on a port that a tcp listener with
    the same SSL usage holds; the store is as it was. *)
Theorem AddListener_Fatal_inv h hlc h' printed panicValue :
  AddListener h hlc = (h', Fatal printed panicValue) →
  h' = h
  ∧ Mode hlc = "tcp"
  ∧ ∃ l, getListener (ipsOf h) (ListenIP hlc) (ListenPort hlc) = Some l
      ∧ mode l = "tcp" ∧ useSSL l = hasCertificate hlc.
Proof.
  destruct (decide (validationMessages hlc h = [])) as [Hmsg|Hmsg];
    [|by rewrite AddListener_rejected].
  destruct (getListener (ipsOf h) (ListenIP hlc) (ListenPort hlc)) as [l|] eqn:Hl;
    [|by rewrite AddListener_created].
  destruct (decide (Mode hlc = "tcp")) as [Htcp|Htcp];
    [|by erewrite AddListener_merged].
  erewrite AddListener_fatal by done. intros [= <- _ _].
  destruct (validationMessages_occupied _ _ _ Hmsg Hl) as [Hm Hs].
  split; [done|]. split; [done|]. exists l. by rewrite Hm.
Qed.

Lemma AddListener_frame_aux h hlc ip port :
  (ip, port) ≠ (ListenIP hlc, ListenPort hlc) →
  getListener (ipsOf (AddListener h hlc).1) ip port = getListener (ipsOf h) ip port.
Proof.
  intros Hne.
  destruct ((AddListener h hlc).2) eqn:Hadded;
    [|rewrite AddListener_not_Added by (by rewrite Hadded); done..].
  destruct (AddListener h hlc) as [h' o] eqn:Hadd. simpl in Hadded. subst o.
  apply AddListener_Added_inv in Hadd as (_ & l0 & -> & _). simpl.
  rewrite ipsOf_storeOf, getListener_setListener, decide_False; [done|].
  intros [<- <-]. by apply Hne.
Qed.

(** Whatever the outcome, the listeners of every other (IP, port) are left
    alone. *)
Theorem AddListener_frame h hlc ip port :
  (ip, port) ≠ (ListenIP hlc, ListenPort hlc) →
  getListener (ipsOf (AddListener h hlc).1) ip port = getListener (ipsOf h) ip port.
Proof. apply AddListener_frame_aux. Qed.

Lemma AddListener_Fatal_inv_witness :
  AddListener dbStore dbRequest
    = (dbStore, Fatal [msgDuplicateTcp (ListenPort dbRequest)] msgPanic)
  ∧ dbStore = dbStore
  ∧ Mode dbRequest = "tcp"
  ∧ ∃ l, getListener (ipsOf dbStore) (ListenIP dbRequest) (ListenPort dbRequest) = Some l
      ∧ mode l = "tcp" ∧ useSSL l = hasCertificate dbRequest.
Proof.
  split; [vm_compute; reflexivity|].
  apply (AddListener_Fatal_inv dbStore dbRequest dbStore
           [msgDuplicateTcp (ListenPort dbRequest)] msgPanic).
  vm_compute; reflexivity.
Defined.

Lemma AddListener_frame_witness :
  ("0.0.0.0", 80%N) ≠ (ListenIP dbRequest, ListenPort dbRequest)
  ∧ getListener (ipsOf (AddListener webStore dbRequest).1) "0.0.0.0" 80%N
    = getListener (ipsOf webStore) "0.0.0.0" 80%N.
Proof.
  split; [discriminate|].
  apply (AddListener_frame webStore dbRequest "0.0.0.0" 80%N). discriminate.
Defined.

Lemma listenerGrows_refl l : listenerGrows l l.
Proof. by split. Qed.

Lemma listenerGrows_trans l1 l2 l3 :
  listenerGrows l1 l2 → listenerGrows l2 l3 → listenerGrows l1 l3.
Proof.
  intros [? ? ? ? ?] [? ? ? ? ?]. split; try congruence; [by etrans|auto].
Qed.

Lemma mergeInto_grows hlc l : listenerGrows l (mergeInto hlc l).
Proof.
  unfold mergeInto. split; simpl; try done.
  - destruct (hasCertificate hlc); [by apply prefix_app_r|done].
  - intros hostname Hsome.
    destruct (decide ((if bool_decide (Mode hlc = "tcp") then "_" else Hostname hlc)
                      = hostname)) as [<-|Hne].
    + by rewrite lookup_insert_eq.
    + by rewrite lookup_insert_ne.
Qed.

Lemma AddListener_grows h hlc ip port l :
  getListener (ipsOf h) ip port = Some l →
  ∃ l', getListener (ipsOf (AddListener h hlc).1) ip port = Some l'
        ∧ listenerGrows l l'.
Proof.
  intros Hl.
  destruct ((AddListener h hlc).2) eqn:Hadded;
    [|rewrite AddListener_not_Added by (by rewrite Hadded);
      eauto using listenerGrows_refl..].
  destruct (AddListener h hlc) as [h' o] eqn:Hadd. simpl in Hadded. subst o.
  apply AddListener_Added_inv in Hadd as (_ & l0 & -> & Hl0). simpl.
  rewrite ipsOf_storeOf, getListener_setListener. case_decide as Hkey.
  - destruct Hkey as [<- <-]. destruct Hl0 as [[Hnone _]|[Hsome _]]; [congruence|].
    rewrite Hl in Hsome. injection Hsome as <-. eauto using mergeInto_grows.
  - eauto using listenerGrows_refl.
Qed.

(** A listener, once there, stays through every later call with the name,
    mode and SSL usage it has; its certificate list only gets longer at the
    end and no hostname loses its backend slot. *)
Theorem listeners_persist_and_grow h hlcs ip port l :
  getListener (ipsOf h) ip port = Some l →
  ∃ l', getListener (ipsOf (storeAfter h hlcs)) ip port = Some l'
        ∧ listenerGrows l l'.
Proof.
  revert h l. induction hlcs as [|hlc hlcs IH]; intros h l Hl; simpl.
  { eauto using listenerGrows_refl. }
  destruct (AddListener_grows h hlc ip port l Hl) as (l1 & Hl1 & Hg1).
  destruct (IH _ _ Hl1) as (l' & Hl' & Hg). eauto using listenerGrows_trans.
Qed.

(** ** Invariants of the stores that [AddListener] builds *)

(** A listener uses SSL exactly when its certificate list is not empty. *)
Theorem reachable_useSSL_iff_certificates h ip port l :
  reachable h →
  getListener (ipsOf h) ip port = Some l →
  useSSL l = true ↔ sslCertificates l ≠ [].
Proof.
  intros Hh. revert ip port l.
  induction Hh as [|h hlc Hh IH]; intros ip port l Hl.
  { by rewrite getListener_Initialize in Hl. }
  apply AddListener_getListener in Hl as [Hl|(Hmsg & l0 & -> & Hl0)]; [by eauto|].
  unfold mergeInto. simpl. destruct Hl0 as [->|[Hl0 _]]; simpl.
  - destruct (hasCertificate hlc); simpl; split; done.
  - destruct (validationMessages_occupied _ _ _ Hmsg Hl0) as [_ Hssl].
    rewrite Hssl. destruct (hasCertificate hlc) eqn:Hhas.
    + split; [|done]. intros _ Hnil. by apply app_eq_nil in Hnil as [_ ?].
    + rewrite <-Hssl. by eapply IH.
Qed.

(** Every listener is http or tcp, and a tcp listener has one backend slot,
    the one under "_". *)
Theorem reachable_modes_and_tcp_slot h ip port l :
  reachable h →
  getListener (ipsOf h) ip port = Some l →
  (mode l = "http" ∨ mode l = "tcp")
  ∧ (mode l = "tcp" → ∃ backend, hostnameBackends l = {[ "_" := backend ]}).
Proof.
  intros Hh. revert ip port l.
  induction Hh as [|h hlc Hh IH]; intros ip port l Hl.
  { by rewrite getListener_Initialize in Hl. }
  apply AddListener_getListener in Hl as [Hl|(Hmsg & l0 & -> & Hl0)]; [by eauto|].
  unfold mergeInto. simpl. destruct Hl0 as [->|[Hl0 Htcp]]; simpl.
  - split; [by apply (validationMessages_mode _ h)|].
    intros ->. rewrite bool_decide_true by done. exists (Backend hlc).
    by rewrite insert_empty.
  - destruct (validationMessages_occupied _ _ _ Hmsg Hl0) as [Hmode _].
    split; [by eapply IH|]. intros Hl0tcp. congruence.
Qed.

(** No IP is listed without a listener and no listener is without a backend:
    the empty inner map of a new IP never outlives the call that made it. *)
Theorem reachable_nothing_empty h :
  reachable h →
  (∀ ip inner, ipsOf h !! ip = Some inner → inner ≠ ∅)
  ∧ (∀ ip port l, getListener (ipsOf h) ip port = Some l → hostnameBackends l ≠ ∅).
Proof.
  induction 1 as [|h hlc Hh [IHin IHl]].
  { split; [intros ip inner Hin|intros ip port l Hl]; [|done].
    unfold Initialize in Hin. by rewrite ipsOf_storeOf, lookup_empty in Hin. }
  split.
  - destruct ((AddListener h hlc).2) eqn:Hadded;
      [|rewrite AddListener_not_Added by (by rewrite Hadded); done..].
    destruct (AddListener h hlc) as [h' o] eqn:Hadd. simpl in Hadded. subst o.
    apply AddListener_Added_inv in Hadd as (_ & l0 & -> & _). simpl.
    rewrite ipsOf_storeOf. unfold setListener. intros ip inner.
    destruct (decide (ListenIP hlc = ip)) as [<-|Hne].
    + rewrite lookup_insert_eq. intros [= <-]. apply insert_non_empty.
    + rewrite lookup_insert_ne by done. apply IHin.
  - intros ip port l Hl.
    apply AddListener_getListener in Hl as [Hl|(Hmsg & l0 & -> & Hl0)]; [by eauto|].
    unfold mergeInto. simpl. apply insert_non_empty.
Qed.

(** ** What an accepted request leaves in its listener *)

(** The request's backend is stored under its hostname key (last write wins),
    every other hostname keeps what it had, and the certificate, if any, is
    appended. *)
Theorem AddListener_Added_effect h hlc :
  (AddListener h hlc).2 = Added →
  let before := default (newListener hlc)
                  (getListener (ipsOf h) (ListenIP hlc) (ListenPort hlc)) in
  ∃ l', getListener (ipsOf (AddListener h hlc).1) (ListenIP hlc) (ListenPort hlc) = Some l'
    ∧ hostnameBackends l' !! hostnameKey hlc = Some (Backend hlc)
    ∧ (∀ hostname, hostname ≠ hostnameKey hlc →
         hostnameBackends l' !! hostname = hostnameBackends before !! hostname)
    ∧ sslCertificates l'
      = sslCertificates before
        ++ (if bool_decide (SslCertificate hlc = "") then [] else [SslCertificate hlc])
    ∧ name l' = name before ∧ mode l' = Mode hlc
    ∧ useSSL l' = negb (bool_decide (SslCertificate hlc = "")).
Proof.
  intros Hadded before.
  destruct (AddListener h hlc) as [h' o] eqn:Hadd. simpl in Hadded. subst o.
  apply AddListener_Added_inv in Hadd as (Hmsg & l0 & -> & Hl0). simpl.
  rewrite ipsOf_storeOf, getListener_setListener, decide_True by done.
  assert (before = l0 ∧ mode l0 = Mode hlc ∧ useSSL l0 = hasCertificate hlc)
    as (-> & Hmode & Hssl).
  { unfold before. destruct Hl0 as [[-> ->]|[Hl0 _]]; [done|]. rewrite Hl0.
    split; [done|]. by apply (validationMessages_occupied _ h). }
  eexists. split; [done|]. unfold mergeInto, hostnameKey, hasCertificate in *. simpl.
  split; [by rewrite lookup_insert_eq|].
  split; [intros hostname Hne; by rewrite lookup_insert_ne|].
  split; [|done].
  destruct (bool_decide (SslCertificate hlc = "")); simpl; [by rewrite app_nil_r|done].
Qed.

Lemma listeners_persist_and_grow_witness :
  getListener (ipsOf webStore) "0.0.0.0" 80%N
    = Some (mergeInto webRequest (newListener webRequest))
  ∧ ∃ l', getListener
            (ipsOf (storeAfter webStore [blogRequest; clashRequest; dbRequest; ftpRequest]))
            "0.0.0.0" 80%N = Some l'
      ∧ listenerGrows (mergeInto webRequest (newListener webRequest)) l'.
Proof.
  split; [vm_compute; reflexivity|].
  apply (listeners_persist_and_grow webStore
           [blogRequest; clashRequest; dbRequest; ftpRequest] "0.0.0.0" 80%N).
  vm_compute; reflexivity.
Defined.

Lemma reachable_useSSL_iff_certificates_witness :
  reachable shopStoreTwice
  ∧ getListener (ipsOf shopStoreTwice) "0.0.0.0" 443%N
    = Some (mergeInto (shopRequest "a.pem")
              (mergeInto (shopRequest "a.pem") (newListener (shopRequest "a.pem"))))
  ∧ (useSSL (mergeInto (shopRequest "a.pem")
               (mergeInto (shopRequest "a.pem") (newListener (shopRequest "a.pem"))))
     = true
     ↔ sslCertificates
         (mergeInto (shopRequest "a.pem")
            (mergeInto (shopRequest "a.pem") (newListener (shopRequest "a.pem"))))
       ≠ []).
Proof.
  split; [apply reachable_add, reachable_add, reachable_init|].
  split; [vm_compute; reflexivity|].
  apply (reachable_useSSL_iff_certificates shopStoreTwice "0.0.0.0" 443%N).
  - apply reachable_add, reachable_add, reachable_init.
  - vm_compute; reflexivity.
Defined.

Lemma reachable_modes_and_tcp_slot_witness :
  reachable dbStore
  ∧ getListener (ipsOf dbStore) "10.0.0.1" 3306%N
    = Some (mergeInto dbRequest (newListener dbRequest))
  ∧ (mode (mergeInto dbRequest (newListener dbRequest)) = "http"
     ∨ mode (mergeInto dbRequest (newListener dbRequest)) = "tcp")
  ∧ (mode (mergeInto dbRequest (newListener dbRequest)) = "tcp" →
     ∃ backend,
       hostnameBackends (mergeInto dbRequest (newListener dbRequest))
       = {[ "_" := backend ]}).
Proof.
  split; [apply reachable_add, reachable_init|].
  split; [vm_compute; reflexivity|].
  apply (reachable_modes_and_tcp_slot dbStore "10.0.0.1" 3306%N).
  - apply reachable_add, reachable_init.
  - vm_compute; reflexivity.
Defined.

Lemma reachable_nothing_empty_witness :
  reachable (storeAfter Initialize [webRequest; dbRequest])
  ∧ (∀ ip inner,
       ipsOf (storeAfter Initialize [webRequest; dbRequest]) !! ip = Some inner →
       inner ≠ ∅)
  ∧ (∀ ip port l,
       getListener (ipsOf (storeAfter Initialize [webRequest; dbRequest])) ip port
       = Some l →
       hostnameBackends l ≠ ∅).
Proof.
  split; [apply reachable_add, reachable_add, reachable_init|].
  apply (reachable_nothing_empty (storeAfter Initialize [webRequest; dbRequest])).
  apply reachable_add, reachable_add, reachable_init.
Defined.

Lemma AddListener_Added_effect_witness :
  (AddListener webStore blogRequest).2 = Added
  ∧ ∃ l', getListener (ipsOf (AddListener webStore blogRequest).1)
            (ListenIP blogRequest) (ListenPort blogRequest) = Some l'
      ∧ hostnameBackends l' !! hostnameKey blogRequest = Some (Backend blogRequest)
      ∧ (∀ hostname, hostname ≠ hostnameKey blogRequest →
           hostnameBackends l' !! hostname
           = hostnameBackends
               (default (newListener blogRequest)
                  (getListener (ipsOf webStore) (ListenIP blogRequest)
                     (ListenPort blogRequest))) !! hostname)
      ∧ sslCertificates l'
        = sslCertificates
            (default (newListener blogRequest)
               (getListener (ipsOf webStore) (ListenIP blogRequest)
                  (ListenPort blogRequest)))
          ++ (if bool_decide (SslCertificate blogRequest = "")
              then [] else [SslCertificate blogRequest])
      ∧ name l'
        = name (default (newListener blogRequest)
                  (getListener (ipsOf webStore) (ListenIP blogRequest)
                     (ListenPort blogRequest)))
      ∧ mode l' = Mode blogRequest
      ∧ useSSL l' = negb (bool_decide (SslCertificate blogRequest = "")).
Proof.
  split; [vm_compute; reflexivity|].
  apply (AddListener_Added_effect webStore blogRequest). vm_compute; reflexivity.
Defined.

(** ** Requests in either order *)

Lemma setListener_setListener ips ip port l l' :
  setListener (setListener ips ip port l) ip port l' = setListener ips ip port l'.
Proof.
  unfold setListener. rewrite lookup_insert_eq. simpl.
  by rewrite !insert_insert_eq.
Qed.

Lemma setListener_commute ips ip1 port1 l1 ip2 port2 l2 :
  (ip1, port1) ≠ (ip2, port2) →
  setListener (setListener ips ip1 port1 l1) ip2 port2 l2
  = setListener (setListener ips ip2 port2 l2) ip1 port1 l1.
Proof.
  intros Hne. unfold setListener.
  destruct (decide (ip1 = ip2)) as [<-|Hip].
  - assert (port1 ≠ port2) as Hport by congruence.
    rewrite !lookup_insert_eq, !insert_insert_eq. simpl.
    by rewrite insert_insert_ne.
  - rewrite !lookup_insert_ne by done.
    by rewrite insert_insert_ne.
Qed.

(** The messages of [validate] depend on the store through the occupant of
    the request's (IP, port) only. *)
Lemma validationMessages_local h h' hlc :
  getListener (ipsOf h') (ListenIP hlc) (ListenPort hlc)
  = getListener (ipsOf h) (ListenIP hlc) (ListenPort hlc) →
  validationMessages hlc h' = validationMessages hlc h.
Proof. unfold validationMessages. by intros ->. Qed.

Lemma AddListener_local h h' hlc :
  getListener (ipsOf h') (ListenIP hlc) (ListenPort hlc)
  = getListener (ipsOf h) (ListenIP hlc) (ListenPort hlc) →
  (AddListener h' hlc).2 = (AddListener h hlc).2
  ∧ ((AddListener h hlc).2 = Added →
     ∃ l, ipsOf (AddListener h hlc).1
          = setListener (ipsOf h) (ListenIP hlc) (ListenPort hlc) l
        ∧ ipsOf (AddListener h' hlc).1
          = setListener (ipsOf h') (ListenIP hlc) (ListenPort hlc) l).
Proof.
  intros Hloc. pose proof (validationMessages_local h h' hlc Hloc) as Hmsgs.
  destruct (decide (validationMessages hlc h = [])) as [Hmsg|Hmsg].
  - assert (validationMessages hlc h' = []) as Hmsg' by congruence.
    destruct (getListener (ipsOf h) (ListenIP hlc) (ListenPort hlc)) as [l|] eqn:Hl.
    + destruct (decide (Mode hlc = "tcp")) as [Htcp|Htcp].
      * by rewrite (AddListener_fatal h hlc l), (AddListener_fatal h' hlc l).
      * rewrite (AddListener_merged h hlc l), (AddListener_merged h' hlc l) by done.
        split; [done|]. intros _. by eexists.
    + rewrite (AddListener_created h hlc), (AddListener_created h' hlc) by done.
      split; [done|]. intros _. by eexists.
  - rewrite (AddListener_rejected h hlc), (AddListener_rejected h' hlc) by congruence.
    simpl. split; [by rewrite Hmsgs|done].
Qed.

Lemma store_eq h h' : ipsOf h = ipsOf h' → h = h'.
Proof. intros Heq. by rewrite <-(storeOf_ipsOf h), <-(storeOf_ipsOf h'), Heq. Qed.

(** Two requests for different (IP, port) pairs do not interfere: each gets
    the outcome it would get alone, and the store they leave does not depend
    on which came first. *)
Theorem AddListener_commute h r1 r2 :
  (ListenIP r1, ListenPort r1) ≠ (ListenIP r2, ListenPort r2) →
  (AddListener (AddListener h r1).1 r2).1 = (AddListener (AddListener h r2).1 r1).1
  ∧ (AddListener (AddListener h r1).1 r2).2 = (AddListener h r2).2
  ∧ (AddListener (AddListener h r2).1 r1).2 = (AddListener h r1).2.
Proof.
  intros Hne.
  assert ((ListenIP r2, ListenPort r2) ≠ (ListenIP r1, ListenPort r1)) as Hne'
    by congruence.
  destruct (AddListener_local h (AddListener h r1).1 r2) as [Ho2 Hs2].
  { by apply AddListener_frame_aux. }
  destruct (AddListener_local h (AddListener h r2).1 r1) as [Ho1 Hs1].
  { by apply AddListener_frame_aux. }
  split; [|done]. apply store_eq.
  destruct ((AddListener h r1).2) eqn:Hr1; destruct ((AddListener h r2).2) eqn:Hr2;
    try (rewrite (AddListener_not_Added (AddListener h r1).1 r2)
           by (rewrite Ho2; done));
    try (rewrite (AddListener_not_Added (AddListener h r2).1 r1)
           by (rewrite Ho1; done));
    try (rewrite (AddListener_not_Added h r1) in * by (rewrite Hr1; done));
    try (rewrite (AddListener_not_Added h r2) in * by (rewrite Hr2; done));
    try done.
  destruct (Hs1 eq_refl) as (l1 & E1a & E1b).
  destruct (Hs2 eq_refl) as (l2 & E2a & E2b).
  rewrite E2b, E1b, E1a, E2a. by apply setListener_commute.
Qed.

Lemma validationMessages_after_merge h hlc other ip port l :
  ListenIP hlc = ip → ListenPort hlc = port →
  getListener (ipsOf h) ip port = Some l →
  validationMessages hlc (storeOf (setListener (ipsOf h) ip port (mergeInto other l)))
  = validationMessages hlc h.
Proof.
  intros <- <- Hl. unfold validationMessages.
  by rewrite ipsOf_storeOf, getListener_setListener, decide_True, Hl.
Qed.

Lemma mapRel_setListener_same (R : haproxyListener → haproxyListener → Prop)
    `{!Reflexive R} ips ip port l l' :
  R l l' → mapRel (mapRel R) (setListener ips ip port l) (setListener ips ip port l').
Proof.
  intros HR ip'. unfold setListener. destruct (decide (ip = ip')) as [<-|Hne].
  - rewrite !lookup_insert_eq. constructor. intros port'.
    destruct (decide (port = port')) as [<-|Hne].
    + rewrite !lookup_insert_eq. by constructor.
    + rewrite !lookup_insert_ne by done. by destruct (_ !! port'); constructor.
  - rewrite !lookup_insert_ne by done. destruct (ips !! ip'); constructor.
    apply mapRel_refl, _.
Qed.

Lemma mergeInto_swap_sameText r1 r2 l :
  Mode r1 ≠ "tcp" → Mode r2 ≠ "tcp" → Hostname r1 ≠ Hostname r2 →
  sameText (mergeInto r2 (mergeInto r1 l)) (mergeInto r1 (mergeInto r2 l)).
Proof.
  intros Ht1 Ht2 Hhost.
  assert (crtDirectives (mergeInto r2 (mergeInto r1 l))
          = crtDirectives (mergeInto r1 (mergeInto r2 l))) as Hcrt.
  { unfold crtDirectives, mergeInto. simpl.
    apply crtLoop_after_sort_ext. intros x.
    destruct (hasCertificate r1), (hasCertificate r2); rewrite ?elem_of_app; tauto. }
  assert (hostnameBackends (mergeInto r2 (mergeInto r1 l))
          = hostnameBackends (mergeInto r1 (mergeInto r2 l))) as Hhb.
  { unfold mergeInto. simpl. rewrite !bool_decide_false by done.
    by apply insert_insert_ne. }
  split; intros.
  - unfold frontEndText, bindOptions, hostnameOrder. by rewrite Hcrt, Hhb.
  - unfold backEndsText, hostnameOrder. by rewrite Hhb.
Qed.

(** Two requests for one occupied (IP, port) that name different hostnames
    render the same text in either order: each keeps its outcome, the backend
    slots do not overlap and the certificate order is immaterial. *)
Theorem same_socket_order_irrelevant h r1 r2 l :
  getListener (ipsOf h) (ListenIP r1) (ListenPort r1) = Some l →
  ListenIP r2 = ListenIP r1 → ListenPort r2 = ListenPort r1 →
  Hostname r1 ≠ Hostname r2 →
  renderAfter h [r1; r2] = renderAfter h [r2; r1].
Proof.
  intros Hl Hip Hport Hhost.
  assert (getListener (ipsOf h) (ListenIP r2) (ListenPort r2) = Some l) as Hl2
    by (by rewrite Hip, Hport).
  pose proof (validationMessages_after_merge h r2 r1 _ _ l Hip Hport Hl) as Hm21.
  pose proof (validationMessages_after_merge h r1 r2 _ _ l eq_refl eq_refl Hl) as Hm12.
  unfold renderAfter. simpl.
  destruct (decide (validationMessages r1 h = [])) as [Hmsg1|Hmsg1];
    destruct (decide (validationMessages r2 h = [])) as [Hmsg2|Hmsg2].
  - destruct (decide (Mode r1 = "tcp")) as [Htcp1|Htcp1];
      destruct (decide (Mode r2 = "tcp")) as [Htcp2|Htcp2].
    + by rewrite (AddListener_fatal h r1 l), (AddListener_fatal h r2 l).
    + rewrite (AddListener_fatal h r1 l), (AddListener_merged h r2 l) by done.
      rewrite Hip, Hport.
      erewrite (AddListener_fatal _ r1);
        [done|by rewrite Hm12| |done].
      by rewrite ipsOf_storeOf, getListener_setListener, decide_True.
    + rewrite (AddListener_merged h r1 l), (AddListener_fatal h r2 l) by done.
      erewrite (AddListener_fatal _ r2);
        [done|by rewrite Hm21| |done].
      by rewrite ipsOf_storeOf, Hip, Hport, getListener_setListener, decide_True.
    + rewrite (AddListener_merged h r1 l), (AddListener_merged h r2 l) by done.
      rewrite Hip, Hport.
      erewrite (AddListener_merged _ r2); [|by rewrite Hm21| |done]; cycle 1.
      { by rewrite ipsOf_storeOf, Hip, Hport, getListener_setListener, decide_True. }
      erewrite (AddListener_merged _ r1); [|by rewrite Hm12| |done]; cycle 1.
      { by rewrite ipsOf_storeOf, getListener_setListener, decide_True. }
      rewrite !Render_text. apply RenderSpec_sameText.
      rewrite !ipsOf_storeOf, Hip, Hport, !setListener_setListener.
      apply (mapRel_setListener_same sameText).
      by apply mergeInto_swap_sameText.
  - rewrite (AddListener_rejected h r2) by done.
    destruct (decide (Mode r1 = "tcp")) as [Htcp1|Htcp1].
    + by rewrite (AddListener_fatal h r1 l).
    + rewrite (AddListener_merged h r1 l) by done.
      by rewrite (AddListener_rejected _ r2) by (by rewrite Hm21).
  - rewrite (AddListener_rejected h r1) by done.
    destruct (decide (Mode r2 = "tcp")) as [Htcp2|Htcp2].
    + by rewrite (AddListener_fatal h r2 l).
    + rewrite (AddListener_merged h r2 l) by done.
      rewrite Hip, Hport.
      by rewrite (AddListener_rejected _ r1) by (by rewrite Hm12).
  - rewrite (AddListener_rejected h r1), (AddListener_rejected h r2) by done.
    simpl. by rewrite (AddListener_rejected h r1) by done.
Qed.

Lemma AddListener_commute_witness :
  (ListenIP webRequest, ListenPort webRequest) ≠ (ListenIP dbRequest, ListenPort dbRequest)
  ∧ (AddListener (AddListener Initialize webRequest).1 dbRequest).1
    = (AddListener (AddListener Initialize dbRequest).1 webRequest).1
  ∧ (AddListener (AddListener Initialize webRequest).1 dbRequest).2
    = (AddListener Initialize dbRequest).2
  ∧ (AddListener (AddListener Initialize dbRequest).1 webRequest).2
    = (AddListener Initialize webRequest).2.
Proof.
  split; [discriminate|].
  apply (AddListener_commute Initialize webRequest dbRequest). discriminate.
Defined.

Lemma same_socket_order_irrelevant_witness :
  getListener (ipsOf webStore) (ListenIP blogRequest) (ListenPort blogRequest)
    = Some (mergeInto webRequest (newListener webRequest))
  ∧ ListenIP wikiRequest = ListenIP blogRequest
  ∧ ListenPort wikiRequest = ListenPort blogRequest
  ∧ Hostname blogRequest ≠ Hostname wikiRequest
  ∧ renderAfter webStore [blogRequest; wikiRequest]
    = renderAfter webStore [wikiRequest; blogRequest].
Proof.
  split; [vm_compute; reflexivity|]. split; [reflexivity|]. split; [reflexivity|].
  split; [discriminate|].
  apply (same_socket_order_irrelevant webStore blogRequest wikiRequest
           (mergeInto webRequest (newListener webRequest)));
    [vm_compute; reflexivity|reflexivity|reflexivity|discriminate].
Defined.

(** ** When [Render] leaves the store alone *)

Section range_loop_store.
Context `{Countable K} {V : Type} (nilPanics : bool).
Implicit Types (m : gmap K V) (keys : list K).

Lemma forEach_unchanged body keys m config :
  (∀ k v, m !! k = Some v → (body k v).1 = v) →
  (forEach nilPanics body keys m config).1 = m.
Proof.
  intros Hbody. revert config.
  induction keys as [|k keys IH]; intros config; simpl; [done|].
  destruct (m !! k) as [v|] eqn:Hk; [|destruct nilPanics; [done|apply IH]].
  specialize (Hbody k v Hk). destruct (body k v) as [v' [text|]]; simpl in *; subst v'.
  - rewrite insert_id by done. apply IH.
  - by rewrite insert_id.
Qed.

(** After a loop that ran to its end, every visited slot holds what the body
    made of it, and the body did not panic there. *)
Lemma forEach_visited body keys m config out :
  NoDup keys →
  (forEach nilPanics body keys m config).2 = Ok out →
  ∀ k, (forEach nilPanics body keys m config).1 !! k
       = (if decide (k ∈ keys) then (λ v, (body k v).1) <$> m !! k else m !! k)
       ∧ (k ∈ keys → ∀ v, m !! k = Some v → ∃ t, (body k v).2 = Ok t).
Proof.
  intros Hnd. revert m config.
  induction Hnd as [|k0 keys Hk0 Hnd IH]; intros m config Hok k; simpl in *.
  { split; [done|]. by intros ?%elem_of_nil. }
  destruct (m !! k0) as [v0|] eqn:Hm0.
  - destruct (body k0 v0) as [v0' [text|]] eqn:Hbody; simpl in *; [|done].
    destruct (IH _ _ Hok k) as [Hlook Hbodies]. rewrite Hlook.
    destruct (decide (k = k0)) as [->|Hne].
    + rewrite decide_False by done. rewrite decide_True by (by left).
      rewrite lookup_insert_eq, Hm0. simpl. rewrite Hbody. split; [done|].
      intros _ v [= <-]. rewrite Hbody. by eexists.
    + rewrite lookup_insert_ne in * by done. split.
      * destruct (decide (k ∈ keys)) as [Hin|Hnin].
        -- by rewrite decide_True by (by right).
        -- rewrite decide_False; [done|]. by intros [?|?]%elem_of_cons.
      * intros [?|Hin]%elem_of_cons; [done|]. intros v Hv. by apply Hbodies.
  - destruct nilPanics; [done|].
    destruct (IH _ _ Hok k) as [Hlook Hbodies]. rewrite Hlook. split.
    + destruct (decide (k = k0)) as [->|Hne].
      * rewrite decide_False by done. rewrite decide_True by (by left).
        by rewrite Hm0.
      * destruct (decide (k ∈ keys)) as [Hin|Hnin].
        -- by rewrite decide_True by (by right).
        -- rewrite decide_False; [done|]. by intros [?|?]%elem_of_cons.
    + intros [->|Hin]%elem_of_cons v Hv; [congruence|by apply Hbodies].
Qed.
End range_loop_store.

Lemma sortStrings_sorted_id l : Sorted String.le l → sortStrings l = l.
Proof.
  intros Hs. apply insertionSort_id.
  eapply Sorted_weaken; [|exact Hs]. intros x y. by apply string_notAfter_le.
Qed.

Lemma sortServers_sorted_id l :
  Sorted (λ a b, String.le (BackendServer.Name a) (BackendServer.Name b)) l →
  sortServers l = l.
Proof.
  intros Hs. apply insertionSort_id.
  eapply Sorted_weaken; [|exact Hs]. intros a b. by apply string_notAfter_le.
Qed.

Lemma frontEnd_store listenIP port l :
  (frontEnd listenIP port l).1
  = if useSSL l
    then mkListener (name l) (mode l) (sortStrings (sslCertificates l))
           (hostnameBackends l) (useSSL l)
    else l.
Proof.
  unfold frontEnd. destruct (useSSL l) eqn:Hssl;
    cbn [mode name hostnameBackends sslCertificates].
  - rewrite sortStrings_idemp.
    destruct (bool_decide (mode l = "http")).
    { by destruct (emitInOrder _ _ _ _ _). }
    destruct (bool_decide (mode l = "tcp")); [|done].
    by destruct (hostnameBackends l !! "_").
  - destruct (bool_decide (mode l = "http")).
    { by destruct (emitInOrder _ _ _ _ _). }
    destruct (bool_decide (mode l = "tcp")); [|done].
    by destruct (hostnameBackends l !! "_").
Qed.

Lemma frontEnd_unchanged listenIP port l :
  (useSSL l = true → Sorted String.le (sslCertificates l)) →
  (frontEnd listenIP port l).1 = l.
Proof.
  intros Hs. rewrite frontEnd_store. destruct (useSSL l) eqn:Hssl; [|done].
  rewrite sortStrings_sorted_id by auto. destruct l; simpl in *. by subst.
Qed.

Lemma backEnd_unchanged listenerMode hostname b :
  backendSorted b → (backEnd listenerMode hostname b).1 = b.
Proof.
  intros Hs. unfold backEnd. simpl. rewrite sortServers_sorted_id by done.
  by destruct b.
Qed.

Lemma backEndsOfListener_unchanged port l :
  (∀ hostname b, hostnameBackends l !! hostname = Some b → backendSorted b) →
  (backEndsOfListener port l).1 = l.
Proof.
  intros Hs. unfold backEndsOfListener.
  pose proof (forEach_unchanged true (backEnd (mode l))
    (sortBackendMap (hostnameBackends l)) (hostnameBackends l) "") as Hsame.
  destruct (forEach _ _ _ _ _) as [backends r]. simpl in *.
  rewrite Hsame; [by destruct l|].
  intros k b Hb. apply (backEnd_unchanged (mode l) k b). by eapply Hs.
Qed.

Lemma Render_sorted_store_unchanged_aux h : storeSorted h → (Render h).1 = h.
Proof.
  intros Hs. unfold Render.
  assert ((forEach false frontEndsOfIP (collectIPs (elements (dom (ipsOf h))))
             (ipsOf h) "").1 = ipsOf h) as H1.
  { apply forEach_unchanged. intros ip inner Hin.
    apply forEach_unchanged. intros port l Hl.
    apply frontEnd_unchanged, (Hs ip port). unfold getListener. by rewrite Hin. }
  destruct (forEach false frontEndsOfIP _ _ _) as [m1 [config|]]; simpl in H1; subst m1;
    [|apply storeOf_ipsOf].
  assert ((forEach false backEndsOfIP (collectIPs (elements (dom (ipsOf h))))
             (ipsOf h) config).1 = ipsOf h) as H2.
  { apply forEach_unchanged. intros ip inner Hin.
    apply forEach_unchanged. intros port l Hl.
    apply backEndsOfListener_unchanged, (Hs ip port). unfold getListener. by rewrite Hin. }
  destruct (forEach false backEndsOfIP _ _ _) as [m2 r]. simpl in *. subst m2.
  apply storeOf_ipsOf.
Qed.

Lemma forEach_visited_all `{Countable K} {V : Type} nilPanics
    (body : K → V → V * result string) keys (m : gmap K V) config out k v' :
  NoDup keys →
  (∀ k, is_Some (m !! k) → k ∈ keys) →
  (forEach nilPanics body keys m config).2 = Ok out →
  (forEach nilPanics body keys m config).1 !! k = Some v' →
  ∃ v t, m !! k = Some v ∧ body k v = (v', Ok t).
Proof.
  intros Hnd Hcover Hok Hk.
  destruct (forEach_visited nilPanics body keys m config out Hnd Hok k) as [Hlook Hbody].
  rewrite Hlook in Hk. destruct (decide (k ∈ keys)) as [Hin|Hnin].
  - destruct (m !! k) as [v|] eqn:Hm; [|done]. injection Hk as <-.
    destruct (Hbody Hin v eq_refl) as [t Ht]. exists v, t. split; [done|].
    destruct (body k v). simpl in *. by subst.
  - exfalso. apply Hnin, Hcover. by eexists.
Qed.

Lemma sortListenerMap_cover (inner : gmap N haproxyListener) port :
  is_Some (inner !! port) → port ∈ sortListenerMap inner.
Proof.
  intros Hin. by apply elem_of_sortPorts, elem_of_elements, elem_of_dom.
Qed.

Lemma sortBackendMap_cover (backends : gmap string HaproxyBackend.t) hostname :
  is_Some (backends !! hostname) → hostname ∈ sortBackendMap backends.
Proof.
  intros Hin. by apply elem_of_sortStrings, elem_of_elements, elem_of_dom.
Qed.

Lemma collectIPs_cover (ips : gmap string (gmap N haproxyListener)) ip :
  is_Some (ips !! ip) → ip ∈ collectIPs (elements (dom ips)).
Proof.
  intros Hin. rewrite collectIPs_sorted.
  by apply elem_of_sortStrings, elem_of_elements, elem_of_dom.
Qed.

Lemma collectIPs_NoDup (ips : gmap string (gmap N haproxyListener)) :
  NoDup (collectIPs (elements (dom ips))).
Proof.
  rewrite collectIPs_sorted, sortStrings_Permutation. apply NoDup_elements.
Qed.

Lemma backEndsOfListener_sorted port l l' t :
  backEndsOfListener port l = (l', Ok t) →
  useSSL l' = useSSL l ∧ sslCertificates l' = sslCertificates l
  ∧ ∀ hostname b, hostnameBackends l' !! hostname = Some b → backendSorted b.
Proof.
  unfold backEndsOfListener.
  destruct (forEach true (backEnd (mode l)) _ _ _) as [backends r] eqn:Hloop.
  intros [= <- ->]. simpl. split; [done|]. split; [done|].
  intros hostname b Hb.
  destruct (forEach_visited_all true (backEnd (mode l))
              (sortBackendMap (hostnameBackends l)) (hostnameBackends l) "" t hostname b)
    as (b0 & t0 & _ & Hbody).
  - apply hostnameOrder_NoDup.
  - apply sortBackendMap_cover.
  - by rewrite Hloop.
  - by rewrite Hloop.
  - injection Hbody as <- _. apply sortServers_Sorted.
Qed.

Lemma frontEnd_sorted listenIP port l :
  useSSL (frontEnd listenIP port l).1 = true →
  Sorted String.le (sslCertificates (frontEnd listenIP port l).1).
Proof.
  rewrite frontEnd_store. destruct (useSSL l) eqn:Hssl; [|congruence].
  intros _. apply sortStrings_Sorted.
Qed.

(** On a store whose certificate lists (of SSL listeners) and server lists
    are already in order, [Render] is read-only. *)
Theorem Render_sorted_store_unchanged h : storeSorted h → (Render h).1 = h.
Proof. apply Render_sorted_store_unchanged_aux. Qed.

(** A call of [Render] that returns leaves the store with nothing left to
    sort. *)
Lemma Render_leaves_sorted h out : (Render h).2 = Ok out → storeSorted (Render h).1.
Proof.
  unfold Render.
  destruct (forEach false frontEndsOfIP _ (ipsOf h) "") as [m1 r1] eqn:Hpass1.
  destruct r1 as [config|]; [|done].
  destruct (forEach false backEndsOfIP _ m1 config) as [m2 r2] eqn:Hpass2.
  simpl. intros ->. intros ip port l2. rewrite ipsOf_storeOf. unfold getListener.
  destruct (m2 !! ip) as [inner2|] eqn:Hin2; [|done]. intros Hl2.
  pose proof (forEach_rel false _ frontEndsOfIP
    (collectIPs (elements (dom (ipsOf h)))) (ipsOf h) "" frontEndsOfIP_inPlace) as Hrel.
  rewrite Hpass1 in Hrel. simpl in Hrel.
  destruct (forEach_visited_all false backEndsOfIP
              (collectIPs (elements (dom (ipsOf h)))) m1 config out ip inner2)
    as (inner1 & t2 & Hin1 & Hbody2).
  { apply collectIPs_NoDup. }
  { intros k. rewrite <-!elem_of_dom, <-(mapRel_dom _ _ _ Hrel), elem_of_dom.
    apply collectIPs_cover. }
  { by rewrite Hpass2. }
  { by rewrite Hpass2. }
  destruct (forEach_visited_all false frontEndsOfIP
              (collectIPs (elements (dom (ipsOf h)))) (ipsOf h) "" config ip inner1)
    as (inner0 & t1 & Hin0 & Hbody1).
  { apply collectIPs_NoDup. }
  { apply collectIPs_cover. }
  { by rewrite Hpass1. }
  { by rewrite Hpass1. }
  unfold backEndsOfIP in Hbody2. unfold frontEndsOfIP in Hbody1.
  destruct (forEach_visited_all true backEndsOfListener
              (sortListenerMap inner1) inner1 "" t2 port l2)
    as (l1 & u2 & Hl1 & Hb2).
  { apply portOrder_NoDup. }
  { apply sortListenerMap_cover. }
  { by rewrite Hbody2. }
  { by rewrite Hbody2. }
  destruct (forEach_visited_all true (frontEnd ip)
              (sortListenerMap inner0) inner0 "" t1 port l1)
    as (l0 & u1 & Hl0 & Hb1).
  { apply portOrder_NoDup. }
  { apply sortListenerMap_cover. }
  { by rewrite Hbody1. }
  { by rewrite Hbody1. }
  destruct (backEndsOfListener_sorted _ _ _ _ Hb2) as (Hssl & Hcerts & Hbackends).
  split; [|done]. rewrite Hssl, Hcerts.
  pose proof (frontEnd_sorted ip port l0) as Hsorted. by rewrite Hb1 in Hsorted.
Qed.


Lemma Render_sorted_store_unchanged_witness :
  storeSorted (Render shopStoreUnsorted).1
  ∧ (Render (Render shopStoreUnsorted).1).1 = (Render shopStoreUnsorted).1.
Proof.
  split.
  - eapply Render_leaves_sorted. vm_compute. reflexivity.
  - apply (Render_sorted_store_unchanged (Render shopStoreUnsorted).1).
    eapply Render_leaves_sorted. vm_compute. reflexivity.
Defined.


(** ** Every listener and every backend is in the text *)


Section range_loop_text.
Context `{Countable K} {V : Type} (nilPanics : bool).
Implicit Types (m : gmap K V) (keys : list K).


End range_loop_text.


(** ** When [Render] panics *)

Lemma emitInOrder_Panic_inv `{Countable K} {V : Type} nilPanics
    (text : K → V → result string) keys (m : gmap K V) config :
  emitInOrder nilPanics text keys m config = Panic →
  (∀ k, k ∈ keys → is_Some (m !! k)) →
  ∃ k v, k ∈ keys ∧ m !! k = Some v ∧ text k v = Panic.
Proof.
  revert config. induction keys as [|k keys IH]; intros config Hp Hdom; simpl in *.
  { done. }
  destruct (Hdom k) as [v Hv]; [by left|]. rewrite Hv in Hp.
  destruct (text k v) as [t|] eqn:Ht.
  - destruct (IH _ Hp) as (k' & v' & Hin & Hv' & Ht').
    { intros k' Hk'. apply Hdom. by right. }
    exists k', v'. split; [by right|done].
  - exists k, v. split; [by left|done].
Qed.

Lemma emitInOrder_Panic `{Countable K} {V : Type} nilPanics
    (text : K → V → result string) keys (m : gmap K V) config k v :
  k ∈ keys → m !! k = Some v → text k v = Panic →
  emitInOrder nilPanics text keys m config = Panic.
Proof.
  revert config. induction keys as [|k0 keys IH]; intros config Hin Hv Ht; simpl.
  { by apply elem_of_nil in Hin. }
  destruct (decide (k = k0)) as [<-|Hne].
  - by rewrite Hv, Ht.
  - apply elem_of_cons in Hin as [?|Hin]; [done|].
    destruct (m !! k0) as [v0|]; [|destruct nilPanics; [done|by apply IH]].
    destruct (text k0 v0); [by apply IH|done].
Qed.

Lemma frontEndText_Panic_iff listenIP port l :
  frontEndText listenIP port l = Panic
  ↔ mode l = "tcp" ∧ hostnameBackends l !! "_" = None.
Proof.
  split.
  - intros Hp. destruct (decide (mode l = "tcp")) as [Htcp|Htcp].
    + split; [done|]. destruct (hostnameBackends l !! "_") as [b|] eqn:Hb; [|done].
      destruct (frontEndText_total listenIP port l) as [out Hout]; [by eauto|].
      congruence.
    + destruct (frontEndText_total listenIP port l) as [out Hout]; [done|].
      congruence.
  - intros [Htcp Hnone]. unfold frontEndText.
    rewrite Htcp, bool_decide_false, bool_decide_true by done. by rewrite Hnone.
Qed.

(** [Render] panics exactly on the stores that hold a tcp listener without a
    backend under "_". *)
Theorem Render_panics_iff h :
  (Render h).2 = Panic
  ↔ ∃ ip port l, getListener (ipsOf h) ip port = Some l
       ∧ mode l = "tcp" ∧ hostnameBackends l !! "_" = None.
Proof.
  rewrite Render_text. split.
  - intros Hp.
    unfold RenderSpec in Hp.
    destruct (emitInOrder false frontEndsOfIPText (ipOrder h) (ipsOf h) "")
      as [config|] eqn:Hfronts.
    + exfalso.
      apply emitInOrder_Panic_inv in Hp as (ip & inner & Hip & Hin & Hp).
      2:{ intros k Hk. by apply elem_of_sortStrings, elem_of_elements, elem_of_dom in Hk. }
      apply emitInOrder_Panic_inv in Hp as (port & l & Hport & Hl & Hp).
      2:{ intros k Hk. by apply elem_of_sortPorts, elem_of_elements, elem_of_dom in Hk. }
      destruct (backEndsText_total port l) as [out Hout]. congruence.
    + apply emitInOrder_Panic_inv in Hfronts as (ip & inner & Hip & Hin & Hp').
      2:{ intros k Hk. by apply elem_of_sortStrings, elem_of_elements, elem_of_dom in Hk. }
      apply emitInOrder_Panic_inv in Hp' as (port & l & Hport & Hl & Hp').
      2:{ intros k Hk. by apply elem_of_sortPorts, elem_of_elements, elem_of_dom in Hk. }
      apply frontEndText_Panic_iff in Hp' as [Htcp Hnone].
      exists ip, port, l. unfold getListener. by rewrite Hin.
  - intros (ip & port & l & Hl & Htcp & Hnone). unfold getListener in Hl.
    destruct (ipsOf h !! ip) as [inner|] eqn:Hin; [|done].
    unfold RenderSpec.
    rewrite (emitInOrder_Panic false frontEndsOfIPText (ipOrder h) (ipsOf h) "" ip inner);
      [done| |done|].
    + by apply elem_of_sortStrings, elem_of_elements, elem_of_dom.
    + apply (emitInOrder_Panic true _ _ _ _ port l); [|done|].
      * by apply elem_of_sortPorts, elem_of_elements, elem_of_dom.
      * by apply frontEndText_Panic_iff.
Qed.


(** ** Discovery: which services and which node addresses are kept *)

#[export] Instance routerEnabled_dec service : Decision (routerEnabled service).
Proof. unfold routerEnabled. apply _. Defined.




(** [getProxiedKubernetesServices] panics when the configuration cannot be
    built (or when a list call hands back neither a list nor an error), and
    returns the error when the client cannot be built or the list call
    fails. *)
Theorem getProxiedKubernetesServices_failures
    (Config Clientset : Type) buildConfig newForConfig listServices :
  let call :=
    getProxiedKubernetesServices Config Clientset buildConfig newForConfig listServices in
  (call = Panic ↔
     (∃ err, buildConfig = Failed err)
     ∨ ∃ config clientset, buildConfig = Returned config
         ∧ newForConfig config = Returned clientset
         ∧ listServices clientset = (None, None))
  ∧ (∀ err, call = Ok (Failed err) ↔
       ∃ config, buildConfig = Returned config
         ∧ (newForConfig config = Failed err
            ∨ ∃ clientset items, newForConfig config = Returned clientset
                ∧ listServices clientset = (items, Some err))).
Proof.
  intros call. unfold call, getProxiedKubernetesServices.
  destruct buildConfig as [config|err0].
  2:{ split; [split; [eauto|done]|].
      intros err. split; [done|]. by intros (config & ? & _). }
  destruct (newForConfig config) as [clientset|err1] eqn:Hclient.
  2:{ split.
      - split; [done|]. intros [[err ?]|(c & cl & [= <-] & ? & _)]; congruence.
      - intros err. split.
        + intros [= ->]. eauto.
        + intros (c & [= <-] & [?|(cl & items & ? & _)]); congruence. }
  destruct (listServices clientset) as [[items|] [err2|]] eqn:Hlist.
  - split.
    + split; [done|]. intros [[err ?]|(c & cl & [= <-] & ? & ?)]; congruence.
    + intros err. split.
      * intros [= ->]. eauto 10.
      * intros (c & [= <-] & [?|(cl & items' & ? & ?)]); congruence.
  - split.
    + split; [done|]. intros [[err ?]|(c & cl & [= <-] & ? & ?)]; congruence.
    + intros err. split; [done|].
      intros (c & [= <-] & [?|(cl & items' & ? & ?)]); congruence.
  - split.
    + split; [done|]. intros [[err ?]|(c & cl & [= <-] & ? & ?)]; congruence.
    + intros err. split.
      * intros [= ->]. eauto 10.
      * intros (c & [= <-] & [?|(cl & items' & ? & ?)]); congruence.
  - split.
    + split; [eauto 10|done].
    + intros err. split; [done|].
      intros (c & [= <-] & [?|(cl & items' & ? & ?)]); congruence.
Qed.

(** [getAllKubernetesNodes] returns an error only when the configuration or
    the client cannot be built.  An error of the list call is logged and not
    returned: with a list object the call returns the map of what the list
    holds, as if it had succeeded. *)
Theorem getAllKubernetesNodes_failures
    (Config Clientset : Type) buildConfig newForConfig listNodes :
  let call := getAllKubernetesNodes Config Clientset buildConfig newForConfig listNodes in
  (∀ err, call.2 = Ok (Failed err) ↔
     buildConfig = Failed err
     ∨ ∃ config, buildConfig = Returned config ∧ newForConfig config = Failed err)
  ∧ (∀ config clientset items err,
       buildConfig = Returned config →
       newForConfig config = Returned clientset →
       listNodes clientset = (Some items, err) →
       call = (match err with Some e => [e] | None => [] end,
               Ok (Returned (collectNodeIPs items)))).
Proof.
  intros call. unfold call, getAllKubernetesNodes. split.
  - intros err. destruct buildConfig as [config|err0]; simpl.
    2:{ split; [intros [= ->]; by left|]. intros [[= ->]|(c & ? & _)]; done. }
    destruct (newForConfig config) as [clientset|err1] eqn:Hclient; simpl.
    2:{ split; [intros [= ->]; eauto|].
        intros [?|(c & [= <-] & ?)]; congruence. }
    destruct (listNodes clientset) as [[items|] e]; simpl;
      (split; [done|]; intros [?|(c & [= <-] & ?)]; congruence).
  - intros config clientset items err -> Hclient Hlist. by rewrite Hclient, Hlist.
Qed.

#[export] Instance internalIP_dec address : Decision (internalIP address).
Proof. unfold internalIP. apply _. Defined.

Lemma internalAddresses_lookup nodeIPs node name :
  internalAddresses nodeIPs node !! name
  = if decide (name = Node.Name node)
    then match last (filter internalIP (Node.Addresses node)) with
         | Some address => Some (NodeAddress.Address address)
         | None => nodeIPs !! name
         end
    else nodeIPs !! name.
Proof.
  unfold internalAddresses. generalize (Node.Addresses node) as addresses.
  intros addresses. revert nodeIPs.
  induction addresses as [|a addresses IH]; intros nodeIPs; simpl.
  { by destruct (decide _). }
  rewrite IH, filter_cons.
  destruct (decide (internalIP a)) as [Hint|Hint].
  - rewrite bool_decide_true by done. rewrite last_cons.
    destruct (decide (name = Node.Name node)) as [->|Hne].
    + destruct (last (filter internalIP addresses)); [done|].
      by rewrite lookup_insert_eq.
    + by rewrite lookup_insert_ne.
  - by rewrite bool_decide_false by done.
Qed.

Lemma collectNodeIPs_snoc items node :
  collectNodeIPs (items ++ [node]) = internalAddresses (collectNodeIPs items) node.
Proof. unfold collectNodeIPs. by rewrite foldl_app. Qed.

Lemma collectNodeIPs_sound_aux items name ip :
  collectNodeIPs items !! name = Some ip →
  ∃ node address,
    node ∈ items ∧ Node.Name node = name
    ∧ address ∈ Node.Addresses node
    ∧ NodeAddress.Type_ address = "InternalIP"
    ∧ NodeAddress.Address address = ip.
Proof.
  induction items as [|node items IH] using rev_ind.
  { unfold collectNodeIPs. simpl. by rewrite lookup_empty. }
  rewrite collectNodeIPs_snoc, internalAddresses_lookup.
  assert (collectNodeIPs items !! name = Some ip →
          ∃ node0 address, node0 ∈ items ++ [node] ∧ Node.Name node0 = name
            ∧ address ∈ Node.Addresses node0
            ∧ NodeAddress.Type_ address = "InternalIP"
            ∧ NodeAddress.Address address = ip) as Hold.
  { intros (node0 & address & Hin & Hrest)%IH. exists node0, address.
    split; [|done]. apply elem_of_app. by left. }
  case_decide as Hname; [|done].
  destruct (last (filter internalIP (Node.Addresses node))) as [address|] eqn:Hlast;
    [|done].
  intros [= <-]. apply last_Some_elem_of, list_elem_of_filter in Hlast as [Hint Hin].
  exists node, address. split; [apply elem_of_app; right; by left|done].
Qed.

(** Every entry of the map [getAllKubernetesNodes] builds is the address of
    an [InternalIP] entry of a listed node of that name: other address types
    never get in, and a node without such an entry adds nothing. *)
Theorem collectNodeIPs_sound items name ip :
  collectNodeIPs items !! name = Some ip →
  ∃ node address,
    node ∈ items ∧ Node.Name node = name
    ∧ address ∈ Node.Addresses node
    ∧ NodeAddress.Type_ address = "InternalIP"
    ∧ NodeAddress.Address address = ip.
Proof. apply collectNodeIPs_sound_aux. Qed.

(** When the listed nodes have distinct names, each node is mapped to the
    last of its [InternalIP] addresses, and a node that has none is not in
    the map. *)
Theorem collectNodeIPs_distinct_names items node :
  NoDup (Node.Name <$> items) →
  node ∈ items →
  collectNodeIPs items !! Node.Name node
  = NodeAddress.Address <$> last (filter internalIP (Node.Addresses node)).
Proof.
  induction items as [|n items IH] using rev_ind; intros Hnd Hin.
  { by apply elem_of_nil in Hin. }
  rewrite fmap_app in Hnd. apply NoDup_app in Hnd as (Hnd & Hfresh & _).
  assert (Node.Name n ∉ Node.Name <$> items) as Hn.
  { intros Hn. apply (Hfresh _ Hn). by left. }
  rewrite collectNodeIPs_snoc, internalAddresses_lookup.
  apply elem_of_app in Hin as [Hin|Hin%list_elem_of_singleton].
  - rewrite decide_False; [by apply IH|].
    intros Heq. apply Hn. rewrite <-Heq. by apply list_elem_of_fmap_2.
  - subst n. rewrite decide_True by done.
    destruct (last (filter internalIP (Node.Addresses node))); [done|]. simpl.
    destruct (collectNodeIPs items !! Node.Name node) as [ip|] eqn:Hip; [|done].
    apply collectNodeIPs_sound_aux in Hip as (node0 & _ & Hin0 & Hname & _).
    exfalso. apply Hn. rewrite <-Hname. by apply list_elem_of_fmap_2.
Qed.

Lemma collectNodeIPs_sound_witness :
  collectNodeIPs sampleNodes !! "node1" = Some "10.0.0.11"
  ∧ ∃ node address,
      node ∈ sampleNodes ∧ Node.Name node = "node1"
      ∧ address ∈ Node.Addresses node
      ∧ NodeAddress.Type_ address = "InternalIP"
      ∧ NodeAddress.Address address = "10.0.0.11".
Proof.
  split; [vm_compute; reflexivity|].
  apply (collectNodeIPs_sound sampleNodes "node1" "10.0.0.11").
  vm_compute; reflexivity.
Defined.

Lemma collectNodeIPs_distinct_names_witness :
  NoDup (Node.Name <$> sampleNodes)
  ∧ Node.mk "node3"
      [ NodeAddress.mk "InternalIP" "10.0.0.13";
        NodeAddress.mk "InternalIP" "10.0.1.13" ] ∈ sampleNodes
  ∧ collectNodeIPs sampleNodes !! "node3"
    = NodeAddress.Address
        <$> last (filter internalIP
                    [ NodeAddress.mk "InternalIP" "10.0.0.13";
                      NodeAddress.mk "InternalIP" "10.0.1.13" ]).
Proof.
  assert (NoDup (Node.Name <$> sampleNodes)) as Hnd.
  { apply (bool_decide_unpack _). vm_compute. exact I. }
  assert (Node.mk "node3"
            [ NodeAddress.mk "InternalIP" "10.0.0.13";
              NodeAddress.mk "InternalIP" "10.0.1.13" ] ∈ sampleNodes) as Hin.
  { unfold sampleNodes. apply elem_of_cons. right. apply elem_of_cons. right.
    apply elem_of_cons. by left. }
  split; [exact Hnd|]. split; [exact Hin|].
  exact (collectNodeIPs_distinct_names sampleNodes _ Hnd Hin).
Defined.

(** The sample cluster: the external-only node is absent and the last
    internal address of a node wins. *)
Example collectNodeIPs_sample :
  collectNodeIPs sampleNodes = {[ "node1" := "10.0.0.11"; "node3" := "10.0.1.13" ]}.
Proof. vm_compute. reflexivity. Qed.
